(** * FocusForge (visual-search game): the round generator

    A shallow embedding of [generate_positions] and [make_items] from
    [focus-forge.py], and the properties of the layout solver and of the
    round generator stated over it.

    - Python [int] is [Z]. Python [float] is an IEEE 754 binary64 value,
      modelled by the standard library's [spec_float] with [prec = 53] and
      [emax = 1024] (round to nearest, ties to even), so every float
      expression of the source is evaluated bit for bit.
    - A raised exception is an error result.
    - The pseudorandom source is a tape: the finite sequence of raw draws
      a call consumes. A loop that redraws until a condition holds is a
      recursion along the tape; a tape that ends early yields [Exhausted].
    - The high scores ([Highscores.add]), the click handling, the menu
      and the frame update of [Game] are embedded after the round
      generator, with the game as a record passed from call to call; the
      drawing, the sound and the score file are left out.
*)

From Stdlib Require Import String ZArith List Lia Bool.
From Stdlib Require Import Sorting.Permutation Sorting.Sorted.
From Stdlib Require Import Floats.SpecFloat Floats.PrimFloat Floats.FloatOps.
Import ListNotations.

Set Warnings "-inexact-float".

Open Scope Z_scope.

(* ================================================================== *)
(** ** Python results: a value or a raised exception *)

Inductive exn : Type :=
| ValueError
| OverflowError
| IndexError
| ZeroDivisionError
| RecursionError
| UnboundLocalError
| Exhausted.   (* the tape of recorded draws ran out *)

Inductive result (A : Type) : Type :=
| Ok (a : A)
| Raise (e : exn).

Arguments Ok {A} a.
Arguments Raise {A} e.

Definition rbind {A B} (r : result A) (k : A -> result B) : result B :=
  match r with
  | Ok a => k a
  | Raise e => Raise e
  end.

Declare Scope py_scope.
Delimit Scope py_scope with py.

Notation "x <~ c ;; k" := (rbind c (fun x => k))
  (at level 61, c at next level, right associativity) : py_scope.

Open Scope py_scope.

(* ================================================================== *)
(** ** Python floats *)

Definition float : Type := spec_float.

Definition fadd : float -> float -> float := SFadd prec emax.
Definition fsub : float -> float -> float := SFsub prec emax.
Definition fmul : float -> float -> float := SFmul prec emax.
Definition fsqrt : float -> float := SFsqrt prec emax.
Definition flt : float -> float -> bool := SFltb.

(** The float literals of the source, each rounded to binary64 as the
    Python parser rounds it. *)
Definition f0_0   : float := S754_zero false.
Definition f1_0   : float := Eval vm_compute in Prim2SF 1.0%float.
Definition f0_03  : float := Eval vm_compute in Prim2SF 0.03%float.
Definition f0_05  : float := Eval vm_compute in Prim2SF 0.05%float.
Definition f0_06  : float := Eval vm_compute in Prim2SF 0.06%float.
Definition f0_2   : float := Eval vm_compute in Prim2SF 0.2%float.
Definition f0_3   : float := Eval vm_compute in Prim2SF 0.3%float.
Definition f0_35  : float := Eval vm_compute in Prim2SF 0.35%float.
Definition f0_5   : float := Eval vm_compute in Prim2SF 0.5%float.
Definition f0_65  : float := Eval vm_compute in Prim2SF 0.65%float.
Definition f0_95  : float := Eval vm_compute in Prim2SF 0.95%float.
Definition f1_2   : float := Eval vm_compute in Prim2SF 1.2%float.
Definition f1_4   : float := Eval vm_compute in Prim2SF 1.4%float.
Definition f1_5   : float := Eval vm_compute in Prim2SF 1.5%float.
Definition f2_5   : float := Eval vm_compute in Prim2SF 2.5%float.
(** [math.tau] *)
Definition tau    : float := Eval vm_compute in Prim2SF 6.283185307179586%float.

(** [float(z)] as Python converts an [int] operand of a mixed operation:
    correctly rounded, [OverflowError] when the result is not finite. *)
Definition of_int (z : Z) : result float :=
  match binary_normalize prec emax z 0 false with
  | S754_infinity _ => Raise OverflowError
  | f => Ok f
  end.

(** The exact value of a finite float as [m * 2^e] with a signed [m]. *)
Definition signed (s : bool) (m : positive) : Z :=
  if s then Zneg m else Zpos m.

(** [int(f)]: truncation toward zero. *)
Definition int_of_float (f : float) : result Z :=
  match f with
  | S754_nan => Raise ValueError
  | S754_infinity _ => Raise OverflowError
  | S754_zero _ => Ok 0
  | S754_finite s m e =>
      Ok (if 0 <=? e then signed s m * 2 ^ e
          else Z.quot (signed s m) (2 ^ (- e)))
  end.

(** [math.ceil(f)]. *)
Definition ceil (f : float) : result Z :=
  match f with
  | S754_nan => Raise ValueError
  | S754_infinity _ => Raise OverflowError
  | S754_zero _ => Ok 0
  | S754_finite s m e =>
      Ok (if 0 <=? e then signed s m * 2 ^ e
          else - ((- signed s m) / 2 ^ (- e)))
  end.

(** [i < f] for an [int] [i] and a [float] [f]: Python compares the two
    exactly. *)
Definition int_lt_float (i : Z) (f : float) : bool :=
  match f with
  | S754_nan => false
  | S754_infinity s => negb s
  | S754_zero _ => i <? 0
  | S754_finite s m e =>
      if 0 <=? e then i <? signed s m * 2 ^ e
      else i * 2 ^ (- e) <? signed s m
  end.

(** [f > i] for a [float] [f] and an [int] [i]. *)
Definition float_gt_int (f : float) (i : Z) : bool := int_lt_float i f.

(** [a / b] on two [int]s: the correctly rounded quotient of the two
    integers themselves. *)
Definition int_truediv (a b : Z) : result float :=
  if b =? 0 then Raise ZeroDivisionError
  else if a =? 0 then Ok (S754_zero (b <? 0))
  else
    match SFdiv prec emax (S754_finite (a <? 0) (Z.to_pos (Z.abs a)) 0)
                          (S754_finite (b <? 0) (Z.to_pos (Z.abs b)) 0) with
    | S754_infinity _ => Raise OverflowError
    | f => Ok f
    end.

(** [math.sqrt(n)] for an [int] [n]. *)
Definition math_sqrt (n : Z) : result float :=
  x <~ of_int n ;;
  match fsqrt x with
  | S754_nan => Raise ValueError
  | f => Ok f
  end.

(** Mixed arithmetic, the [int] operand converted first. *)
Definition int_mul_float (i : Z) (f : float) : result float :=
  x <~ of_int i ;; Ok (fmul x f).

Definition int_add_float (i : Z) (f : float) : result float :=
  x <~ of_int i ;; Ok (fadd x f).

(** [x ** 2] on a float, taken as the correctly rounded square. *)
Definition fsquare (x : float) : float := fmul x x.

(** [min(a, b)] on floats as the builtin picks: the first argument unless
    the second is strictly smaller. *)
Definition fmin (a b : float) : float := if flt b a then b else a.

(* ================================================================== *)
(** ** The pseudorandom source

    [random.Random] is modelled by the sequence of raw draws it hands out:
    each method takes the next draw and reduces it to its own range, so a
    tape stands for one possible behaviour of the generator and a property
    proved for every tape holds for every seed. *)

Definition tape : Type := list Z.

Definition M (A : Type) : Type := tape -> result (A * tape).

Definition ret {A} (a : A) : M A := fun t => Ok (a, t).

Definition bind {A B} (c : M A) (k : A -> M B) : M B :=
  fun t =>
    match c t with
    | Ok (a, t') => k a t'
    | Raise e => Raise e
    end.

Definition raise {A} (e : exn) : M A := fun _ => Raise e.

Definition lift {A} (r : result A) : M A :=
  fun t =>
    match r with
    | Ok a => Ok (a, t)
    | Raise e => Raise e
    end.

Notation "x <- c ;; k" := (bind c (fun x => k))
  (at level 61, c at next level, right associativity) : py_scope.
Notation "' pat <- c ;; k" := (bind c (fun x => match x with pat => k end))
  (at level 61, pat pattern, c at next level, right associativity) : py_scope.

Definition draw : M Z :=
  fun t =>
    match t with
    | [] => Raise Exhausted
    | r :: t' => Ok (r, t')
    end.

(** [rng._randbelow(n)] for [n > 0]: a value in [0, n). *)
Definition randbelow (n : Z) : M Z :=
  r <- draw ;; ret (r mod n).

(** [rng.random()]: [k * 2^-53] for a [k] in [0, 2^53). *)
Definition random : M float :=
  r <- draw ;; ret (binary_normalize prec emax (r mod 2 ^ 53) (-53) false).

(** [rng.randrange(start, stop)]. *)
Definition randrange2 (start stop : Z) : M Z :=
  let width := stop - start in
  if 0 <? width then k <- randbelow width ;; ret (start + k)
  else raise ValueError.

(** [rng.randrange(stop)]. *)
Definition randrange (stop : Z) : M Z :=
  if 0 <? stop then randbelow stop else raise ValueError.

(** [rng.randint(a, b)]. *)
Definition randint (a b : Z) : M Z := randrange2 a (b + 1).

Definition len {A} (l : list A) : Z := Z.of_nat (length l).

(** [rng.choice(seq)]. *)
Definition choice {A} (l : list A) : M A :=
  match l with
  | [] => raise IndexError
  | d :: _ => i <- randbelow (len l) ;; ret (nth (Z.to_nat i) l d)
  end.

(** [rng.uniform(a, b)]. *)
Definition uniform (a b : float) : M float :=
  u <- random ;; ret (fadd a (fmul (fsub b a) u)).

(* ================================================================== *)
(** ** Layout solver: [generate_positions] *)

Definition WIDTH : Z := 960.
Definition HEIGHT : Z := 720.
Definition MARGIN : Z := 60.

Definition point : Type := (Z * Z)%type.

(** [(px-x)**2 + (py-y)**2 < (pad*2.5)**2] *)
Definition too_close (pad x y : Z) (p : point) : result bool :=
  let '(px, py) := p in
  r <~ int_mul_float pad f2_5 ;;
  Ok (int_lt_float ((px - x) ^ 2 + (py - y) ^ 2) (fsquare r)).

(** The inner [for px, py in positions] loop: the final value of [ok]. *)
Fixpoint all_clear (pad x y : Z) (positions : list point) : result bool :=
  match positions with
  | [] => Ok true
  | p :: rest =>
      c <~ too_close pad x y p ;;
      if c then Ok false else all_clear pad x y rest
  end.

(** The [while len(positions) < n and attempts < n*200] loop; [fuel] is
    [n*200 - attempts]. *)
Fixpoint place (fuel : nat) (n pad : Z) (positions : list point)
  : M (list point) :=
  match fuel with
  | O => ret positions
  | S fuel' =>
      if len positions <? n then
        x <- randint (MARGIN + pad) (WIDTH - MARGIN - pad) ;;
        y <- randint (MARGIN + pad + 40) (HEIGHT - MARGIN - pad) ;;
        ok <- lift (all_clear pad x y positions) ;;
        place fuel' n pad (if ok then positions ++ [(x, y)] else positions)
      else ret positions
  end.

(** [range(k)] *)
Definition range (k : Z) : list Z := map Z.of_nat (seq 0 (Z.to_nat k)).

(** One grid point [(int(MARGIN+(c+1)*gx), int(MARGIN+80+(r+1)*gy))]. *)
Definition grid_point (gx gy : float) (r c : Z) : result point :=
  ax <~ int_mul_float (c + 1) gx ;;
  fx <~ int_add_float MARGIN ax ;;
  x <~ int_of_float fx ;;
  ay <~ int_mul_float (r + 1) gy ;;
  fy <~ int_add_float (MARGIN + 80) ay ;;
  y <~ int_of_float fy ;;
  Ok (x, y).

(** The inner [for c in range(cols)] loop with its [break]. *)
Fixpoint grid_row (n : Z) (gx gy : float) (r : Z) (cs : list Z)
  (positions : list point) : result (list point) :=
  match cs with
  | [] => Ok positions
  | c :: cs' =>
      if n <=? len positions then Ok positions
      else
        p <~ grid_point gx gy r c ;;
        grid_row n gx gy r cs' (positions ++ [p])
  end.

(** The outer [for r in range(rows)] loop. *)
Fixpoint grid_rows (n : Z) (gx gy : float) (cols : Z) (rs : list Z)
  (positions : list point) : result (list point) :=
  match rs with
  | [] => Ok positions
  | r :: rs' =>
      positions' <~ grid_row n gx gy r (range cols) positions ;;
      grid_rows n gx gy cols rs' positions'
  end.

(** The fallback branch of [generate_positions]. *)
Definition grid (n : Z) : result (list point) :=
  s <~ math_sqrt n ;;
  cols <~ int_of_float s ;;
  q <~ int_truediv n cols ;;
  rows <~ ceil q ;;
  gx <~ int_truediv (WIDTH - 2 * MARGIN) (cols + 1) ;;
  gy <~ int_truediv (HEIGHT - 2 * MARGIN - 80) (rows + 1) ;;
  grid_rows n gx gy cols (range rows) [].

Definition generate_positions (n pad : Z) : M (list point) :=
  positions <- place (Z.to_nat (n * 200)) n pad [] ;;
  if len positions <? n then lift (grid n) else ret positions.

(* ================================================================== *)
(** ** Round generator: data model *)

Inductive Shape : Type := circle | square | triangle.

Inductive Color : Type := blue | orange | sky | green | yellow | red | purple.

Inductive Mode : Type := classic | conjunction | mixed.

Definition SHAPES : list Shape := [circle; square; triangle].

Definition COLOR_NAMES : list Color :=
  [blue; orange; sky; green; yellow; red; purple].

Definition Shape_eq_dec (a b : Shape) : {a = b} + {a <> b}.
Proof. decide equality. Defined.

Definition Color_eq_dec (a b : Color) : {a = b} + {a <> b}.
Proof. decide equality. Defined.

Definition Mode_eq_dec (a b : Mode) : {a = b} + {a <> b}.
Proof. decide equality. Defined.

Definition shape_eqb (a b : Shape) : bool :=
  if Shape_eq_dec a b then true else false.

Definition color_eqb (a b : Color) : bool :=
  if Color_eq_dec a b then true else false.

Definition mode_eqb (a b : Mode) : bool :=
  if Mode_eq_dec a b then true else false.

Definition shape_str (s : Shape) : string :=
  match s with
  | circle => "circle"
  | square => "square"
  | triangle => "triangle"
  end.

Definition color_str (c : Color) : string :=
  match c with
  | blue => "blue"
  | orange => "orange"
  | sky => "sky"
  | green => "green"
  | yellow => "yellow"
  | red => "red"
  | purple => "purple"
  end.

(** The [Item] dataclass. *)
Module Item.
Record t : Type := mk {
  x : Z;
  y : Z;
  size : Z;
  shape : Shape;
  color_name : Color;
  is_target : bool;
  angle : float
}.
End Item.

(** The [rule] dictionary, keys ["mode"] and ["desc"]. *)
Record Rule : Type := mkRule {
  rule_mode : Mode;
  rule_desc : string
}.

(** The distractor variables a rule selection binds: [distract_shape] and
    [distract_color], or [distract_pairs]. *)
Inductive Distract : Type :=
| Fixed (distract_shape : Shape) (distract_color : Color)
| Pairs (distract_pairs : list (Shape * Color)).

(* ================================================================== *)
(** ** Round generator: [make_items] *)

(** The difficulty profile, lines 173 to 177. *)
Definition set_size (level : Z) : Z := Z.min (8 + level * 2) 60.

Definition size (level : Z) : Z := Z.max 12 (26 - level / 2).

Definition heterogeneity (level : Z) : result float :=
  a <~ int_mul_float level f0_05 ;; Ok (fmin f1_0 (fadd f0_3 a)).

Definition rotation (level : Z) : result float :=
  a <~ int_mul_float level f0_03 ;; Ok (fmin f1_0 (fadd f0_2 a)).

Definition crowding (level : Z) : result float :=
  a <~ int_mul_float level f0_06 ;; Ok (fmin f1_0 a).

(** [while cur == target: cur = rng.choice(pool)]; every iteration takes
    one draw, so the length of the tape bounds the iterations. *)
Fixpoint resample {A} (eqb : A -> A -> bool) (pool : list A) (fuel : nat)
  (target cur : A) : M A :=
  if eqb cur target then
    match fuel with
    | O => raise Exhausted
    | S fuel' => c <- choice pool ;; resample eqb pool fuel' target c
    end
  else ret cur.

Definition until_different {A} (eqb : A -> A -> bool) (pool : list A)
  (target : A) : M A :=
  fun t => resample eqb pool (List.length t) target target t.

(** [rng.random()*math.tau if rng.random() < rotation else 0.0]: the
    condition is evaluated first. *)
Definition sample_angle (rot : float) : M float :=
  u <- random ;;
  if flt u rot then v <- random ;; ret (fmul v tau) else ret f0_0.

(** [int(size*k)] for a float literal [k]. *)
Definition int_scale (sz : Z) (k : float) : result Z :=
  f <~ int_mul_float sz k ;; int_of_float f.

(** [int(2 + crowding*4)] *)
Definition crowd_count (crowd : float) : result Z :=
  four <~ of_int 4 ;;
  f <~ int_add_float 2 (fmul crowd four) ;;
  int_of_float f.

Section Round.
(** The local variables of one call, after the rule selection. *)
Variable mode : Mode.
Variable sz : Z.                 (* size *)
Variable het rot crowd : float.  (* heterogeneity, rotation, crowding *)
Variable target_shape : Shape.
Variable target_color : Color.
Variable d : Distract.
Variable target_index : Z.

(** Lines 212 to 214. *)
Definition target_item (x y : Z) : M Item.t :=
  angle <- sample_angle rot ;;
  tsize <- lift (if mode_eqb mode mixed then int_scale sz f1_4 else Ok sz) ;;
  ret (Item.mk x y tsize target_shape target_color true angle).

(** Lines 216 to 225: the archetype, then the heterogeneity mutation. *)
Definition distractor_look : M (Shape * Color) :=
  '(shape, color) <-
     (if mode_eqb mode conjunction then
        match d with
        | Pairs distract_pairs => choice distract_pairs
        | Fixed _ _ => raise UnboundLocalError
        end
      else
        match d with
        | Fixed distract_shape distract_color =>
            ret (distract_shape, distract_color)
        | Pairs _ => raise UnboundLocalError
        end) ;;
  u <- random ;;
  if flt u (fmul het f0_35) then
    v <- random ;;
    if flt v f0_5 then
      shape' <- choice SHAPES ;; ret (shape', color)
    else
      color' <- choice COLOR_NAMES ;; ret (shape, color')
  else ret (shape, color).

(** Lines 216 to 227. *)
Definition distractor_item (x y : Z) : M Item.t :=
  '(shape, color) <- distractor_look ;;
  angle <- sample_angle rot ;;
  ret (Item.mk x y sz shape color false angle).

(** The loop [for i, (x, y) in enumerate(positions)], from index [i]. *)
Fixpoint populate (i : Z) (positions : list point) : M (list Item.t) :=
  match positions with
  | [] => ret []
  | (x, y) :: rest =>
      it <- (if i =? target_index then target_item x y
             else distractor_item x y) ;;
      its <- populate (i + 1) rest ;;
      ret (it :: its)
  end.

(** Lines 232 to 235: the offset of one crowd item. *)
Definition crowd_offset : M (Z * Z) :=
  lo <- lift (int_mul_float (- sz) f2_5) ;;
  hi <- lift (int_mul_float sz f2_5) ;;
  fx <- uniform lo hi ;;
  dx <- lift (int_of_float fx) ;;
  lo' <- lift (int_mul_float (- sz) f2_5) ;;
  hi' <- lift (int_mul_float sz f2_5) ;;
  fy <- uniform lo' hi' ;;
  dy <- lift (int_of_float fy) ;;
  r <- lift (int_mul_float sz f1_2) ;;
  if int_lt_float (dx * dx + dy * dy) (fsquare r) then
    push <- lift (int_scale sz f1_5) ;;
    ret (dx, dy + push)
  else ret (dx, dy).

(** Lines 232 to 239. *)
Definition crowd_item (tx ty : Z) : M Item.t :=
  '(dx, dy) <- crowd_offset ;;
  shape <- choice SHAPES ;;
  color <- choice COLOR_NAMES ;;
  angle <- sample_angle rot ;;
  ret (Item.mk (tx + dx) (ty + dy) (Z.max 8 (sz - 2)) shape color false angle).

(** The loop [for _ in range(crowd_n)]. *)
Fixpoint crowd_loop (k : nat) (tx ty : Z) (items : list Item.t)
  : M (list Item.t) :=
  match k with
  | O => ret items
  | S k' =>
      it <- crowd_item tx ty ;;
      crowd_loop k' tx ty (items ++ [it])
  end.

(** Lines 228 to 239. *)
Definition inject_crowd (items : list Item.t) : M (list Item.t) :=
  if float_gt_int crowd 0 && (5 <=? len items) then
    match nth_error items (Z.to_nat target_index) with
    | None => raise IndexError
    | Some tgt =>
        crowd_n <- lift (crowd_count crowd) ;;
        crowd_loop (Z.to_nat crowd_n) (Item.x tgt) (Item.y tgt) items
    end
  else ret items.

(** Lines 240 to 249. *)
Definition describe : result string :=
  match mode with
  | classic =>
      match d with
      | Fixed distract_shape _ =>
          if shape_eqb distract_shape target_shape then
            Ok ("Find the only " ++ color_str target_color ++ " item")%string
          else
            Ok ("Find the only " ++ shape_str target_shape ++ " among "
                  ++ shape_str distract_shape ++ "s")%string
      | Pairs _ => Raise UnboundLocalError
      end
  | conjunction =>
      Ok ("Find the only " ++ color_str target_color ++ " "
            ++ shape_str target_shape
            ++ " (others share its color or shape)")%string
  | mixed => Ok "Find the unique oddball (size/feature)"%string
  end.
End Round.

(** Lines 208 to 250, once the rule variables are bound. *)
Definition build_round (mode : Mode) (level : Z) (het rot crowd : float)
  (positions : list point) (target_shape : Shape) (target_color : Color)
  (d : Distract) : M (list Item.t * Rule) :=
  target_index <- randrange (set_size level) ;;
  items <- populate mode (size level) het rot target_shape target_color d
             target_index 0 positions ;;
  items' <- inject_crowd (size level) rot crowd target_index items ;;
  desc <- lift (describe mode target_shape target_color d) ;;
  ret (items', mkRule mode desc).

(** The body of [make_items]; [self] is the function the two recursive
    calls of the mixed branch go to. *)
Definition make_items_with (self : Mode -> Z -> M (list Item.t * Rule))
  (mode : Mode) (level : Z) : M (list Item.t * Rule) :=
  het <- lift (heterogeneity level) ;;
  rot <- lift (rotation level) ;;
  crowd <- lift (crowding level) ;;
  positions <- generate_positions (set_size level) (size level + 6) ;;
  match mode with
  | classic =>
      target_shape <- choice SHAPES ;;
      u <- random ;;
      if flt u f0_5 then
        distract_shape <- until_different shape_eqb SHAPES target_shape ;;
        target_color <- choice COLOR_NAMES ;;
        build_round mode level het rot crowd positions target_shape
          target_color (Fixed distract_shape target_color)
      else
        target_color <- choice COLOR_NAMES ;;
        distract_color <- until_different color_eqb COLOR_NAMES target_color ;;
        build_round mode level het rot crowd positions target_shape
          target_color (Fixed target_shape distract_color)
  | conjunction =>
      target_shape <- choice SHAPES ;;
      target_color <- choice COLOR_NAMES ;;
      d1_color <- choice (filter (fun c => negb (color_eqb c target_color))
                            COLOR_NAMES) ;;
      d2_shape <- choice (filter (fun s => negb (shape_eqb s target_shape))
                            SHAPES) ;;
      build_round mode level het rot crowd positions target_shape
        target_color
        (Pairs [(target_shape, d1_color); (d2_shape, target_color)])
  | mixed =>
      u <- random ;;
      if flt u f0_65 then self classic level
      else
        v <- random ;;
        if flt v f0_95 then self conjunction level
        else
          target_shape <- choice SHAPES ;;
          target_color <- choice COLOR_NAMES ;;
          build_round mode level het rot crowd positions target_shape
            target_color (Fixed target_shape target_color)
  end.

(** [make_items]: the recursion is two calls deep at most, since the mixed
    branch calls itself with ["classic"] or ["conjunction"] only. *)
Definition make_items : Mode -> Z -> M (list Item.t * Rule) :=
  make_items_with (make_items_with (fun _ _ => raise RecursionError)).

(* ================================================================== *)
(** ** Specification-side definitions *)

(** The padded sub-region of the canvas random candidates are drawn
    from: inset by [MARGIN + pad], and by 40 more at the top. *)
Definition in_region (pad : Z) (p : point) : Prop :=
  MARGIN + pad <= fst p <= WIDTH - MARGIN - pad /\
  MARGIN + pad + 40 <= snd p <= HEIGHT - MARGIN - pad.

Definition in_regionb (pad : Z) (p : point) : bool :=
  (MARGIN + pad <=? fst p) && (fst p <=? WIDTH - MARGIN - pad) &&
  (MARGIN + pad + 40 <=? snd p) && (snd p <=? HEIGHT - MARGIN - pad).

(** The layout contract for one call of [generate_positions]. *)
Definition positions_contract (n pad : Z) (t : tape) : Prop :=
  exists ps t',
    generate_positions n pad t = Ok (ps, t') /\
    len ps = n /\ Forall (in_region pad) ps.

(** The fallback grid in exact integer arithmetic: [isqrt(n)] columns,
    [ceil(n / cols)] rows, filled row by row. *)
Definition grid_cols (n : Z) : Z := Z.sqrt n.

Definition grid_rows_count (n : Z) : Z :=
  (n + grid_cols n - 1) / grid_cols n.

Definition grid_spec_point (n k : Z) : point :=
  let cols := grid_cols n in
  let rows := grid_rows_count n in
  (MARGIN + ((k mod cols + 1) * (WIDTH - 2 * MARGIN)) / (cols + 1),
   MARGIN + 80 + ((k / cols + 1) * (HEIGHT - 2 * MARGIN - 80)) / (rows + 1)).

Definition grid_spec (n : Z) : list point :=
  map (grid_spec_point n) (range n).

(** The number of columns of a layout: its distinct abscissas. *)
Definition columns (ps : list point) : Z :=
  len (nodup Z.eq_dec (map fst ps)).

Definition point_eqb (p q : point) : bool :=
  (fst p =? fst q) && (snd p =? snd q).

Fixpoint points_eqb (l1 l2 : list point) : bool :=
  match l1, l2 with
  | [], [] => true
  | p :: l1', q :: l2' => point_eqb p q && points_eqb l1' l2'
  | _, _ => false
  end.

(** The targets of an item list. *)
Definition targets (items : list Item.t) : list Item.t :=
  filter Item.is_target items.

(** The items [make_items] lays on the generated positions, and the crowd
    items appended after them. *)
Definition base_items (level : Z) (items : list Item.t) : list Item.t :=
  firstn (Z.to_nat (set_size level)) items.

Definition crowd_items (level : Z) (items : list Item.t) : list Item.t :=
  skipn (Z.to_nat (set_size level)) items.

(** What the fallback grid is checked against for one [n]: the exact
    layout, its length, its columns, and the region for the largest
    padding the round generator asks for. *)
Definition grid_check (n : Z) : bool :=
  match grid n with
  | Ok ps =>
      points_eqb ps (grid_spec n) && (len ps =? n) &&
      forallb (in_regionb 32) ps && (columns ps =? Z.sqrt n)
  | Raise _ => false
  end.

(** The fallback contract with a given column count: once the random
    phase ends with fewer than [n] points, the result is [n] points on
    [cols_of n] columns. *)
Definition fallback_contract (cols_of : Z -> Z) (n pad : Z) (t : tape) : Prop :=
  forall acc t',
    place (Z.to_nat (n * 200)) n pad [] t = Ok (acc, t') ->
    len acc < n ->
    exists ps,
      generate_positions n pad t = Ok (ps, t') /\
      len ps = n /\ columns ps = cols_of n.

(** What the rule selection of each mode guarantees about the variables
    it binds. *)
Definition rule_selected (mode : Mode) (ts : Shape) (tc : Color)
  (d : Distract) : Prop :=
  match mode with
  | classic =>
      exists ds dc, d = Fixed ds dc /\
        ((ds <> ts /\ dc = tc) \/ (ds = ts /\ dc <> tc))
  | conjunction =>
      exists c' s', d = Pairs [(ts, c'); (s', tc)] /\ c' <> tc /\ s' <> ts
  | mixed => d = Fixed ts tc
  end.

(** The size of the target in a round built under [mode]. *)
Definition target_size (mode : Mode) (sz tsize : Z) : Prop :=
  if mode_eqb mode mixed then int_scale sz f1_4 = Ok tsize else tsize = sz.

Definition is_target_item (mode : Mode) (sz : Z) (ts : Shape) (tc : Color)
  (it : Item.t) : Prop :=
  Item.is_target it = true /\ Item.shape it = ts /\
  Item.color_name it = tc /\ target_size mode sz (Item.size it).

(** A look that keeps at least one feature of a distractor archetype:
    the archetype itself, or the archetype with one feature redrawn. *)
Definition derived_from (d : Distract) (s : Shape) (c : Color) : Prop :=
  match d with
  | Fixed ds dc => s = ds \/ c = dc
  | Pairs l => exists p, In p l /\ (s = fst p \/ c = snd p)
  end.

Definition is_distractor_item (sz : Z) (d : Distract) (it : Item.t) : Prop :=
  Item.is_target it = false /\ Item.size it = sz /\
  derived_from d (Item.shape it) (Item.color_name it).

Definition is_crowd_item (sz : Z) (it : Item.t) : Prop :=
  Item.is_target it = false /\ Item.size it = Z.max 8 (sz - 2).

(** The anatomy of the item list of one round: [set_size] base items, of
    which the one at [target_index] is the target and the others are
    distractors, followed by the crowd items. *)
Definition round_shape (mode : Mode) (level : Z) (ts : Shape) (tc : Color)
  (d : Distract) (crowd : float) (items : list Item.t) (rule : Rule) : Prop :=
  exists (target_index : Z) (base extra : list Item.t) (tgt : Item.t),
    items = base ++ extra /\
    len base = set_size level /\
    0 <= target_index < set_size level /\
    nth_error base (Z.to_nat target_index) = Some tgt /\
    is_target_item mode (size level) ts tc tgt /\
    (forall k it, nth_error base k = Some it -> k <> Z.to_nat target_index ->
                  is_distractor_item (size level) d it) /\
    Forall (is_crowd_item (size level)) extra /\
    rule_mode rule = mode /\
    (float_gt_int crowd 0 = true ->
     exists n, crowd_count crowd = Ok n /\ List.length extra = Z.to_nat n).

(** ** Recorded draws used as concrete inputs *)

(** Draws for [rng.random()]: just below 1, and exactly one half. *)
Definition hi : Z := 2 ^ 53 - 1.
Definition half : Z := 2 ^ 52.

(** Ten candidate points 100 apart, all accepted at padding 32. *)
Definition spread10 : tape :=
  [0; 0; 100; 0; 200; 0; 300; 0; 400; 0; 500; 0; 600; 0; 700; 0;
   0; 100; 100; 100].

(** A generator that keeps proposing the same point. *)
Definition stuck (k : nat) : tape := repeat 0 k.

(** Draws of one distractor that is neither mutated nor rotated, with
    fixed features and with a choice among the pairs. *)
Definition quiet : tape := [hi; hi].
Definition quiet_pair : tape := [0; hi; hi].

(** Draws of one crowd item at offset [(-65, -65)] for size 26. *)
Definition crowd_far : tape := [0; 0; 1; 2; hi].

(** Draws of one crowd item at offset [(0, -30)] for size 26: [dx] from
    [u = 0.5] and [dy] from [u = 0.2615...]. *)
Definition crowd_near : tape := [half; 2355985018818560; 1; 2; hi].

(** A classic round at level 1: a circle among squares, all green, the
    target third. *)
Definition tape_classic : tape :=
  spread10 ++ [0; 0; 1; 3; 2] ++
  quiet ++ quiet ++ [hi] ++ concat (repeat quiet 7) ++
  crowd_far ++ crowd_far.

(** The same round, the first distractor mutated to a blue square. *)
Definition tape_classic_mutated : tape :=
  spread10 ++ [0; 0; 1; 3; 2] ++
  [0; hi; 0; hi] ++ quiet ++ [hi] ++ concat (repeat quiet 7) ++
  crowd_far ++ crowd_far.

(** The same round, the second crowd item drawn at [(0, -30)]. *)
Definition tape_crowd_near : tape :=
  spread10 ++ [0; 0; 1; 3; 2] ++
  quiet ++ quiet ++ [hi] ++ concat (repeat quiet 7) ++
  crowd_far ++ crowd_near.

(** A conjunction round at level 1: a green circle among blue circles
    and green squares (here all distractors take the first pair). *)
Definition tape_conjunction : tape :=
  spread10 ++ [0; 3; 0; 0; 2] ++
  quiet_pair ++ quiet_pair ++ [hi] ++ concat (repeat quiet_pair 7) ++
  crowd_far ++ crowd_far.


(** A mixed call at level 1 whose dispatch draws are [1 - 2^-53] and
    [0.5], followed by the draws of the conjunction round above. *)
Definition tape_mixed_delegating : tape :=
  spread10 ++ [hi; half] ++ tape_conjunction.

(** A mixed call at level 1 whose dispatch draws are both [1 - 2^-53]:
    the oddball round. *)
Definition tape_mixed_oddball : tape :=
  spread10 ++ [hi; hi] ++ [0; 3; 2] ++
  quiet ++ quiet ++ [hi] ++ concat (repeat quiet 7) ++
  crowd_far ++ crowd_far.

(** The numerators over [2^53] of the binary64 values of 0.65 and
    0.95. *)
Definition T65 : Z := 5854679515581645.
Definition T95 : Z := 8556839292003942.

(** ** The claims about distractors, as stated *)


(** Classic mode: every non-crowd distractor differs from the target in
    exactly one of shape and color. *)
Definition classic_pop_out (level : Z) (t : tape) : Prop :=
  forall items rule t',
    make_items classic level t = Ok ((items, rule), t') ->
    forall tgt it,
      In tgt (targets items) -> In it (base_items level items) ->
      Item.is_target it = false ->
      (Item.shape it = Item.shape tgt /\
       Item.color_name it <> Item.color_name tgt) \/
      (Item.shape it <> Item.shape tgt /\
       Item.color_name it = Item.color_name tgt).

(** Whether the center of [it] is within [1.2*size] of the center of
    [tgt], by the test of line 234. *)
Definition within_radius (sz : Z) (tgt it : Item.t) : bool :=
  match int_mul_float sz f1_2 with
  | Ok r =>
      int_lt_float ((Item.x it - Item.x tgt) * (Item.x it - Item.x tgt) +
                    (Item.y it - Item.y tgt) * (Item.y it - Item.y tgt))
                   (fsquare r)
  | Raise _ => false
  end.

(* ================================================================== *)
(** ** Further definitions: sorting, high scores, the game state *)

Definition f0_25   : float := Eval vm_compute in Prim2SF 0.25%float.
Definition f10_0   : float := Eval vm_compute in Prim2SF 10.0%float.
Definition f12_0   : float := Eval vm_compute in Prim2SF 12.0%float.
Definition f9999_0 : float := Eval vm_compute in Prim2SF 9999.0%float.

(** [list.sort(key=...)] and [sorted(..., key=...)]: Python's sort is
    stable, and the stable ordering of a list by a key is unique, so an
    insertion sort that keeps equal keys in their order stands for it. *)
Fixpoint insert_by {A} (key : A -> Z) (a : A) (l : list A) : list A :=
  match l with
  | [] => [a]
  | b :: l' => if key a <=? key b then a :: l else b :: insert_by key a l'
  end.

Definition sort_by {A} (key : A -> Z) (l : list A) : list A :=
  fold_right (insert_by key) [] l.

(** [sorted(l, key=..., reverse=True)]: descending keys, equal keys in
    their original order. *)
Definition sorted_reverse_by {A} (key : A -> Z) (l : list A) : list A :=
  sort_by (fun a => - key a) l.

(** The [Highscores] class without its file: [data] and [add]. *)
Module Highscores.
Record Details : Type := mkDetails {
  level : Z;
  misses : Z;
  combo : Z
}.

Record Entry : Type := mkEntry {
  score : Z;
  ts : Z;
  details : Details
}.

(** [self.data]: a dictionary from mode to list; [None] is a missing
    key. *)
Definition data : Type := Mode -> option (list Entry).

(** [self.data.get(mode, [])] *)
Definition get (d : data) (mode : Mode) : list Entry :=
  match d mode with
  | Some l => l
  | None => []
  end.

(** [add(mode, score, details)], with [now] for [int(time.time())];
    the result is the dictionary that [save] then writes. *)
Definition add (d : data) (mode : Mode) (sc now : Z) (det : Details)
  : data :=
  let arr := get d mode ++ [mkEntry sc now det] in
  let arr := sort_by (fun e => - score e) arr in
  fun m => if mode_eqb m mode then Some (firstn 10 arr) else d m.
End Highscores.

(** [pygame.Rect] with its [collidepoint]: a point is inside when it is
    at or after the left and top edges and strictly before the right and
    bottom ones. *)
Record Rect : Type := mkRect {
  left : Z;
  top : Z;
  width : Z;
  height : Z
}.

Definition collidepoint (r : Rect) (pos : point) : bool :=
  (left r <=? fst pos) && (fst pos <? left r + width r) &&
  (top r <=? snd pos) && (snd pos <? top r + height r).

(** [Item.rect] *)
Definition Item_rect (it : Item.t) : Rect :=
  mkRect (Item.x it - Item.size it) (Item.y it - Item.size it)
         (Item.size it * 2) (Item.size it * 2).

(** [f < i] and [f <= i] for a [float] [f] and an [int] [i]: Python
    compares the two exact values. *)
Definition float_lt_int (f : float) (i : Z) : bool :=
  match f with
  | S754_nan => false
  | S754_infinity s => s
  | S754_zero _ => 0 <? i
  | S754_finite s m e =>
      if 0 <=? e then signed s m * 2 ^ e <? i
      else signed s m <? i * 2 ^ (- e)
  end.

Definition float_le_int (f : float) (i : Z) : bool :=
  match f with
  | S754_nan => false
  | S754_infinity s => s
  | S754_zero _ => 0 <=? i
  | S754_finite s m e =>
      if 0 <=? e then signed s m * 2 ^ e <=? i
      else signed s m <=? i * 2 ^ (- e)
  end.

(** A [pygame] event, by its type and the attributes the source reads. *)
Inductive Event : Type :=
| QUIT
| KEYDOWN (key : Z)
| MOUSEBUTTONDOWN (button : Z) (pos : point)
| MOUSEMOTION (pos : point)
| OTHER.

(** [pygame.K_ESCAPE] *)
Definition K_ESCAPE : Z := 27.

(** The callbacks [build_menu] gives to the buttons: [start_mode(m)] and
    [self.view_scores]. A button returns its callback to the loop that
    handles it, which calls it on the game. *)
Inductive Action : Type :=
| StartMode (m : Mode)
| ViewScores.

(** The [Button] class: what [handle] reads and writes. *)
Module Button.
Record t : Type := mk {
  rect : Rect;
  on_click : Action;
  hover : bool
}.

Definition new (r : Rect) (a : Action) : t := mk r a false.

Definition handle (b : t) (ev : Event) : t * option Action :=
  match ev with
  | MOUSEMOTION pos =>
      (mk (rect b) (on_click b) (collidepoint (rect b) pos), None)
  | MOUSEBUTTONDOWN button pos =>
      if (button =? 1) && collidepoint (rect b) pos
      then (b, Some (on_click b))
      else (b, None)
  | _ => (b, None)
  end.
End Button.

(** The [Toggle] class; [on_change] is [None] for both toggles of the
    menu. *)
Module Toggle.
Record t : Type := mk {
  rect : Rect;
  value : bool
}.

Definition new (pos : point) (initial : bool) : t :=
  mk (mkRect (fst pos) (snd pos) 46 26) initial.

Definition handle (tg : t) (ev : Event) : t :=
  match ev with
  | MOUSEBUTTONDOWN button pos =>
      if (button =? 1) && collidepoint (rect tg) pos
      then mk (rect tg) (negb (value tg))
      else tg
  | _ => tg
  end.
End Toggle.

(** The [Game] class: the fields that the menu, [start_game],
    [new_round], [handle_click] and the loop of [run] read or write.
    [self.rng] is the tape. The particles are kept as a list of an
    abstract type: [add_burst] builds them from the module-level
    generator and [math.cos]/[math.sin], so the burst it appends is an
    argument of [handle_click], and [Particle.update] is a parameter of
    the frame update. The screen, the fonts, the sound and the drawing
    are left out. *)
Module Game.
Inductive Screen : Type := menu | play | scores | gameover.

Section WithParticles.
Variable Particle : Type.

Record t : Type := mk {
  state : Screen;
  mode : Mode;
  level : Z;
  score : Z;
  round_time : float;
  time_left : float;
  combo : Z;
  misses : Z;
  items : list Item.t;
  rule : option Rule;
  particles : list Particle;
  buttons : list Button.t;
  toggles : list Toggle.t
}.

Definition set_state (g : t) (v : Screen) : t :=
  mk v (mode g) (level g) (score g) (round_time g) (time_left g) (combo g)
     (misses g) (items g) (rule g) (particles g) (buttons g) (toggles g).

Definition set_mode (g : t) (v : Mode) : t :=
  mk (state g) v (level g) (score g) (round_time g) (time_left g) (combo g)
     (misses g) (items g) (rule g) (particles g) (buttons g) (toggles g).

Definition set_level (g : t) (v : Z) : t :=
  mk (state g) (mode g) v (score g) (round_time g) (time_left g) (combo g)
     (misses g) (items g) (rule g) (particles g) (buttons g) (toggles g).

Definition set_score (g : t) (v : Z) : t :=
  mk (state g) (mode g) (level g) v (round_time g) (time_left g) (combo g)
     (misses g) (items g) (rule g) (particles g) (buttons g) (toggles g).

Definition set_round_time (g : t) (v : float) : t :=
  mk (state g) (mode g) (level g) (score g) v (time_left g) (combo g)
     (misses g) (items g) (rule g) (particles g) (buttons g) (toggles g).

Definition set_time_left (g : t) (v : float) : t :=
  mk (state g) (mode g) (level g) (score g) (round_time g) v (combo g)
     (misses g) (items g) (rule g) (particles g) (buttons g) (toggles g).

Definition set_combo (g : t) (v : Z) : t :=
  mk (state g) (mode g) (level g) (score g) (round_time g) (time_left g) v
     (misses g) (items g) (rule g) (particles g) (buttons g) (toggles g).

Definition set_misses (g : t) (v : Z) : t :=
  mk (state g) (mode g) (level g) (score g) (round_time g) (time_left g)
     (combo g) v (items g) (rule g) (particles g) (buttons g) (toggles g).

Definition set_round (g : t) (its : list Item.t) (r : Rule) : t :=
  mk (state g) (mode g) (level g) (score g) (round_time g) (time_left g)
     (combo g) (misses g) its (Some r) (particles g) (buttons g) (toggles g).

Definition set_particles (g : t) (v : list Particle) : t :=
  mk (state g) (mode g) (level g) (score g) (round_time g) (time_left g)
     (combo g) (misses g) (items g) (rule g) v (buttons g) (toggles g).

Definition set_buttons (g : t) (v : list Button.t) : t :=
  mk (state g) (mode g) (level g) (score g) (round_time g) (time_left g)
     (combo g) (misses g) (items g) (rule g) (particles g) v (toggles g).

Definition set_toggles (g : t) (v : list Toggle.t) : t :=
  mk (state g) (mode g) (level g) (score g) (round_time g) (time_left g)
     (combo g) (misses g) (items g) (rule g) (particles g) (buttons g) v.

(** [build_menu] *)
Definition build_menu (g : t) : t :=
  let gap := 70 in
  let start_y := 260 in
  let g := set_buttons g [] in
  let g := set_buttons g (buttons g ++
    [Button.new (mkRect (WIDTH / 2 - 140) start_y 280 56)
                (StartMode mixed)]) in
  let g := set_buttons g (buttons g ++
    [Button.new (mkRect (WIDTH / 2 - 140) (start_y + gap) 280 56)
                (StartMode classic)]) in
  let g := set_buttons g (buttons g ++
    [Button.new (mkRect (WIDTH / 2 - 140) (start_y + 2 * gap) 280 56)
                (StartMode conjunction)]) in
  let g := set_buttons g (buttons g ++
    [Button.new (mkRect (WIDTH / 2 - 140) (start_y + 3 * gap) 280 56)
                ViewScores]) in
  set_toggles g
    [Toggle.new (WIDTH / 2 - 220, start_y - 60) false;
     Toggle.new (WIDTH / 2 + 80, start_y - 60) false].

(** The state [__init__] leaves. *)
Definition init : t :=
  build_menu (mk menu mixed 1 0 f12_0 f12_0 0 0 [] None [] [] []).

(** [new_round] *)
Definition new_round (g : t) : M t :=
  '(its, r) <- make_items (mode g) (level g) ;;
  let g := set_round g its r in
  let g := set_time_left g (round_time g) in
  ret (set_particles g []).

(** [self.toggles[i].value] *)
Definition toggle_value (g : t) (i : nat) : result bool :=
  match nth_error (toggles g) i with
  | Some tg => Ok (Toggle.value tg)
  | None => Raise IndexError
  end.

(** [start_game(mode)] *)
Definition start_game (g : t) (m : Mode) : M t :=
  let g := set_mode g m in
  let g := set_level g 1 in
  let g := set_score g 0 in
  let g := set_combo g 0 in
  let g := set_misses g 0 in
  let g := set_state g play in
  hardcore <- lift (toggle_value g 0) ;;
  zen <- lift (toggle_value g 1) ;;
  let g := set_round_time g (if hardcore then f10_0 else f12_0) in
  let g := if zen then set_round_time g f9999_0 else g in
  new_round g.

(** [view_scores] *)
Definition view_scores (g : t) : t := set_state g scores.

(** [int(max(0, self.time_left) * 8)]: [max] keeps the [int] 0 unless
    [time_left > 0]. *)
Definition time_bonus (tl : float) : result Z :=
  if float_gt_int tl 0 then
    eight <~ of_int 8 ;; int_of_float (fmul tl eight)
  else Ok 0.

(** The trailing [if not hit_target and self.state == "play"] of
    [handle_click]. *)
Definition idle_penalty (g : t) : t :=
  match state g with
  | play => set_time_left g (fsub (time_left g) f0_25)
  | _ => g
  end.

(** [handle_click(pos)]; [burst] is what [add_burst] appends. *)
Definition handle_click (g : t) (pos : point) (burst : list Particle)
  : M t :=
  let order :=
    sorted_reverse_by (fun i => if Item.is_target i then 1 else 0) (items g) in
  match find (fun it => collidepoint (Item_rect it) pos) order with
  | Some it =>
      if Item.is_target it then
        let g := set_combo g (combo g + 1) in
        bonus <- lift (time_bonus (time_left g)) ;;
        let streak_bonus := Z.min 150 (combo g * 15) in
        let gain := 100 + bonus + streak_bonus in
        let g := set_score g (score g + gain) in
        let g := set_particles g (particles g ++ burst) in
        let g := set_level g (level g + 1) in
        new_round g
      else
        let g := set_combo g 0 in
        let g := set_misses g (misses g + 1) in
        let g := set_time_left g (fsub (time_left g) f1_2) in
        ret (idle_penalty g)
  | None => ret (idle_penalty g)
  end.

(** Calling the callback of a button. *)
Definition call (a : Action) (g : t) : M t :=
  match a with
  | StartMode m => start_game g m
  | ViewScores => ret (view_scores g)
  end.

(** [for b in self.buttons: b.handle(event)]: the buttons as [handle]
    leaves them, and the game after the callbacks. *)
Fixpoint handle_buttons (bs : list Button.t) (ev : Event) (g : t)
  : M (list Button.t * t) :=
  match bs with
  | [] => ret ([], g)
  | b :: bs' =>
      let (b', a) := Button.handle b ev in
      g <- match a with
           | Some a => call a g
           | None => ret g
           end ;;
      '(bs'', g) <- handle_buttons bs' ev g ;;
      ret (b' :: bs'', g)
  end.

(** The body of [for event in pygame.event.get()] in [run]; [None] is
    the exit on [QUIT]. *)
Definition run_event (g : t) (ev : Event) (burst : list Particle)
  : M (option t) :=
  match ev with
  | QUIT => ret None
  | _ =>
      match state g with
      | menu =>
          '(bs, g) <- handle_buttons (buttons g) ev g ;;
          let g := set_buttons g bs in
          let g :=
            set_toggles g (map (fun tg => Toggle.handle tg ev) (toggles g)) in
          ret (Some g)
      | play =>
          let g := match ev with
                   | KEYDOWN key =>
                       if key =? K_ESCAPE then set_state g menu else g
                   | _ => g
                   end in
          match ev with
          | MOUSEBUTTONDOWN button pos =>
              if button =? 1 then
                g <- handle_click g pos burst ;; ret (Some g)
              else ret (Some g)
          | _ => ret (Some g)
          end
      | scores =>
          match ev with
          | KEYDOWN _ => ret (Some (set_state g menu))
          | MOUSEBUTTONDOWN button _ =>
              if button =? 1 then ret (Some (set_state g menu))
              else ret (Some g)
          | _ => ret (Some g)
          end
      | gameover => ret (Some g)
      end
  end.

(** [Particle.update(dt)]: the particle it leaves and whether it is
    still alive. *)
Variable Particle_update : Particle -> float -> Particle * bool.

(** [update_particles(dt)] *)
Definition update_particles (g : t) (dt : float) : t :=
  set_particles g
    (map fst (filter snd (map (fun p => Particle_update p dt) (particles g)))).

(** The part of [run] that follows the events of a frame, before the
    drawing: the timer, the particles and the end of the game. [now] is
    [int(time.time())]; [go_ts], which only the drawing reads, is left
    out. *)
Definition run_update (g : t) (hs : Highscores.data) (dt : float) (now : Z)
  : t * Highscores.data :=
  match state g with
  | play =>
      let g := if float_lt_int (time_left g) 9999
               then set_time_left g (fsub (time_left g) dt) else g in
      let g := update_particles g dt in
      if float_le_int (time_left g) 0 then
        (set_state g gameover,
         Highscores.add hs (mode g) (score g) now
           (Highscores.mkDetails (level g) (misses g) (combo g)))
      else (g, hs)
  | _ => (g, hs)
  end.
End WithParticles.
End Game.

Arguments Game.mk {Particle}.
Arguments Game.state {Particle}.
Arguments Game.mode {Particle}.
Arguments Game.level {Particle}.
Arguments Game.score {Particle}.
Arguments Game.round_time {Particle}.
Arguments Game.time_left {Particle}.
Arguments Game.combo {Particle}.
Arguments Game.misses {Particle}.
Arguments Game.items {Particle}.
Arguments Game.rule {Particle}.
Arguments Game.particles {Particle}.
Arguments Game.buttons {Particle}.
Arguments Game.toggles {Particle}.
Arguments Game.set_state {Particle}.
Arguments Game.set_mode {Particle}.
Arguments Game.set_level {Particle}.
Arguments Game.set_score {Particle}.
Arguments Game.set_round_time {Particle}.
Arguments Game.set_time_left {Particle}.
Arguments Game.set_combo {Particle}.
Arguments Game.set_misses {Particle}.
Arguments Game.set_round {Particle}.
Arguments Game.set_particles {Particle}.
Arguments Game.set_buttons {Particle}.
Arguments Game.set_toggles {Particle}.
Arguments Game.build_menu {Particle}.
Arguments Game.init {Particle}.
Arguments Game.new_round {Particle}.
Arguments Game.toggle_value {Particle}.
Arguments Game.start_game {Particle}.
Arguments Game.view_scores {Particle}.
Arguments Game.idle_penalty {Particle}.
Arguments Game.handle_click {Particle}.
Arguments Game.call {Particle}.
Arguments Game.handle_buttons {Particle}.
Arguments Game.run_event {Particle}.
Arguments Game.update_particles {Particle}.
Arguments Game.run_update {Particle}.

(** ** Specification-side definitions for the further properties *)

(** Two points at least [2.5 * pad] apart, in exact arithmetic. *)
Definition far_apart (pad : Z) (p q : point) : Prop :=
  25 * (pad * pad) <= 4 * ((fst p - fst q) ^ 2 + (snd p - snd q) ^ 2).

(** Whether a float is exactly [n / 4]. *)
Definition is_quarters (f : float) (n : Z) : bool :=
  match f with
  | S754_zero _ => n =? 0
  | S754_finite false m e =>
      if 0 <=? e then 4 * (Zpos m * 2 ^ e) =? n
      else 4 * Zpos m =? n * 2 ^ (- e)
  | _ => false
  end.

Definition point_eq_dec (p q : point) : {p = q} + {p <> q}.
Proof. decide equality; apply Z.eq_dec. Defined.

(** Whether the grid for [n] has no repeated point. *)
Definition distinct_check (n : Z) : bool :=
  points_eqb (nodup point_eq_dec (grid_spec n)) (grid_spec n).

(** The position of an item. *)
Definition Item_pos (it : Item.t) : point := (Item.x it, Item.y it).

(** Scores from best to worst. *)
Definition by_score (a b : Highscores.Entry) : Prop :=
  Highscores.score b <= Highscores.score a.

(** A state in which a round can be played: the counters are in range
    and the board holds exactly one target, of positive size. *)
Definition playable {Particle} (g : @Game.t Particle) : Prop :=
  1 <= Game.level g /\ 0 <= Game.combo g /\ 0 <= Game.misses g /\
  0 <= Game.score g /\
  exists tgt, targets (Game.items g) = [tgt] /\ 0 < Item.size tgt.

(** Whether an item lies under the pointer. *)
Definition under (pos : point) (it : Item.t) : bool :=
  collidepoint (Item_rect it) pos.

(** A game whose menu is laid out as [build_menu] does it: the
    rectangles of the buttons and of the toggles are those of [init];
    the callbacks, the hover flags and the values of the toggles are
    free. *)
Definition menu_laid_out {Particle} (g : @Game.t Particle) : Prop :=
  map Button.rect (Game.buttons g)
  = map Button.rect (Game.buttons (@Game.init Particle)) /\
  map Toggle.rect (Game.toggles g)
  = map Toggle.rect (Game.toggles (@Game.init Particle)).

(** The rectangles of the controls of the menu, in the order the loop
    of [run] handles them. *)
Definition controls {Particle} (g : @Game.t Particle) : list Rect :=
  map Button.rect (Game.buttons g) ++ map Toggle.rect (Game.toggles g).

(** Two rectangles with no point in common. *)
Definition apart (r r' : Rect) : Prop :=
  forall pos, collidepoint r pos = true -> collidepoint r' pos = false.

(** Flipping the first toggle that lies under the pointer, if any. *)
Fixpoint flip_first (pos : point) (ts : list Toggle.t) : list Toggle.t :=
  match ts with
  | [] => []
  | tg :: ts' =>
      if collidepoint (Toggle.rect tg) pos
      then Toggle.mk (Toggle.rect tg) (negb (Toggle.value tg)) :: ts'
      else tg :: flip_first pos ts'
  end.

(** A left click in the menu when one control at most reacts: the
    callback of the first button under the pointer, or else the flip of
    the first toggle under it. *)
Definition menu_click {Particle} (g : @Game.t Particle) (pos : point)
  : M (option (@Game.t Particle)) :=
  match find (fun b => collidepoint (Button.rect b) pos) (Game.buttons g) with
  | Some b => g' <- Game.call (Button.on_click b) g ;; ret (Some g')
  | None =>
      ret (Some (Game.set_toggles g (flip_first pos (Game.toggles g))))
  end.

(** A game in the menu with both toggles as given. *)
Definition menu_with {Particle} (hardcore zen : bool) : @Game.t Particle :=
  let g := @Game.init Particle in
  Game.set_toggles g
    (map (fun p => Toggle.mk (Toggle.rect (fst p)) (snd p))
         (combine (Game.toggles g) [hardcore; zen])).

(** A board of one target item at (100, 100) of size 20 under a
    distractor at the same place. *)
Definition covered_target : list Item.t :=
  [Item.mk 100 100 20 square blue false f0_0;
   Item.mk 100 100 20 circle red true f0_0].

(** A board of high scores: ten entries, 1000 down to 100. *)
Definition board10 : list Highscores.Entry :=
  map (fun k => Highscores.mkEntry (1000 - 100 * k) 0
                  (Highscores.mkDetails 1 0 0)) (range 10).


(* ================================================================== *)
(** * Properties *)

(** ** Difficulty profile *)

Lemma set_size_bounds (level : Z) :
  1 <= level -> 10 <= set_size level <= 60.
Proof. unfold set_size. lia. Qed.

Lemma size_bounds (level : Z) :
  1 <= level -> 12 <= size level <= 26.
Proof.
  intros H. unfold size.
  assert (0 <= level / 2) by (apply Z.div_pos; lia).
  lia.
Qed.

(** C8: the item count is non-decreasing in the level and capped at 60,
    and the item size is non-increasing and floored at 12. *)
Theorem profile_monotone (l1 l2 : Z) :
  1 <= l1 -> l1 <= l2 ->
  set_size l1 <= set_size l2 <= 60 /\ 12 <= size l2 <= size l1.
Proof.
  intros H1 H12. unfold set_size, size.
  assert (l1 / 2 <= l2 / 2) by (apply Z.div_le_mono; lia).
  lia.
Qed.

Lemma profile_monotone_witness :
  set_size 3 <= set_size 40 <= 60 /\ 12 <= size 40 <= size 3.
Proof. apply (profile_monotone 3 40); lia. Defined.

(* ================================================================== *)
(** ** Inversion of monadic computations *)

Lemma rbind_ok {A B} (r : result A) (k : A -> result B) (b : B) :
  rbind r k = Ok b -> exists a, r = Ok a /\ k a = Ok b.
Proof. destruct r as [a|e]; simpl; [eauto | discriminate]. Qed.

Lemma bind_ok {A B} (c : M A) (k : A -> M B) (t : tape) (r : B * tape) :
  bind c k t = Ok r -> exists a t1, c t = Ok (a, t1) /\ k a t1 = Ok r.
Proof.
  unfold bind. destruct (c t) as [[a t1]|e]; [eauto | discriminate].
Qed.

Lemma ret_ok {A} (a b : A) (t t' : tape) :
  ret a t = Ok (b, t') -> b = a /\ t' = t.
Proof. unfold ret. intros H. inversion H. auto. Qed.

Lemma lift_ok {A} (r : result A) (a : A) (t t' : tape) :
  lift r t = Ok (a, t') -> r = Ok a /\ t' = t.
Proof.
  unfold lift. destruct r; intros H; inversion H. auto.
Qed.

Lemma raise_ok {A} (e : exn) (t : tape) (r : A * tape) :
  raise e t = Ok r -> False.
Proof. unfold raise. discriminate. Qed.

(** One step of inversion on a hypothesis [H : c t = Ok r]. *)
Ltac mstep H :=
  match type of H with
  | bind _ _ _ = Ok _ =>
      let a := fresh "a" in
      let t := fresh "t" in
      let Ha := fresh "H" a in
      apply bind_ok in H; destruct H as (a & t & Ha & H)
  | rbind _ _ = Ok _ =>
      let a := fresh "a" in
      let Ha := fresh "H" a in
      apply rbind_ok in H; destruct H as (a & Ha & H)
  | ret _ _ = Ok _ =>
      apply ret_ok in H; destruct H; subst
  | lift _ _ = Ok _ =>
      apply lift_ok in H; destruct H; subst
  | raise _ _ = Ok _ =>
      exfalso; exact (raise_ok _ _ _ H)
  end.

Lemma draw_ok (t t' : tape) (r : Z) :
  draw t = Ok (r, t') -> t = r :: t'.
Proof. destruct t; simpl; intros H; inversion H. reflexivity. Qed.

Lemma randbelow_ok (n k : Z) (t t' : tape) :
  randbelow n t = Ok (k, t') -> 0 < n ->
  0 <= k < n /\ S (List.length t') = List.length t.
Proof.
  unfold randbelow. intros H Hn. mstep H. mstep H.
  apply draw_ok in Ha. subst. split.
  - apply Z.mod_pos_bound. exact Hn.
  - reflexivity.
Qed.

Lemma randrange_ok (n k : Z) (t t' : tape) :
  randrange n t = Ok (k, t') -> 0 <= k < n.
Proof.
  unfold randrange. destruct (0 <? n) eqn:E.
  - intros H. apply randbelow_ok in H; [tauto | lia].
  - intros H. mstep H.
Qed.

Lemma randint_ok (a b k : Z) (t t' : tape) :
  randint a b t = Ok (k, t') -> a <= k <= b.
Proof.
  unfold randint, randrange2. destruct (0 <? b + 1 - a) eqn:E.
  - intros H. mstep H. mstep H.
    apply randbelow_ok in Ha0; [lia | lia].
  - intros H. mstep H.
Qed.

Lemma choice_ok {A} (l : list A) (a : A) (t t' : tape) :
  choice l t = Ok (a, t') -> In a l.
Proof.
  destruct l as [|d l']; unfold choice.
  - intros H. mstep H.
  - intros H. mstep H. mstep H.
    apply randbelow_ok in Ha0; [|unfold len; simpl; lia].
    destruct Ha0 as [Hk _].
    apply (nth_In (d :: l') d). unfold len in Hk. lia.
Qed.

Lemma len_app {A} (l1 l2 : list A) : len (l1 ++ l2) = len l1 + len l2.
Proof. unfold len. rewrite length_app. lia. Qed.

(* ================================================================== *)
(** ** Layout solver *)

Lemma in_regionb_true (pad : Z) (p : point) :
  in_regionb pad p = true <-> in_region pad p.
Proof. unfold in_regionb, in_region. lia. Qed.

Lemma in_region_shrink (pad pad' : Z) (p : point) :
  pad <= pad' -> in_region pad' p -> in_region pad p.
Proof. unfold in_region. lia. Qed.

Lemma points_eqb_eq (l1 l2 : list point) :
  points_eqb l1 l2 = true -> l1 = l2.
Proof.
  revert l2. induction l1 as [|[x1 y1] l1 IH]; intros [|[x2 y2] l2]; simpl;
    try discriminate; auto.
  unfold point_eqb. simpl. intros H.
  apply andb_prop in H. destruct H as [H1 H2].
  apply andb_prop in H1. destruct H1 as [Hx Hy].
  apply Z.eqb_eq in Hx, Hy. subst. f_equal. auto.
Qed.

(** The random phase never holds more than [n] points and stays in the
    padded region. *)
Lemma place_spec (fuel : nat) (n pad : Z) :
  forall ps t ps' t',
    place fuel n pad ps t = Ok (ps', t') ->
    len ps <= n -> Forall (in_region pad) ps ->
    len ps' <= n /\ Forall (in_region pad) ps'.
Proof.
  induction fuel as [|fuel IH]; intros ps t ps' t' H Hlen Hreg; simpl in H.
  - mstep H. auto.
  - destruct (len ps <? n) eqn:E.
    + mstep H. mstep H. mstep H. mstep Ha1.
      apply randint_ok in Ha, Ha0.
      apply IH in H; auto.
      * destruct a1; [|exact Hlen].
        rewrite len_app. unfold len at 2. simpl. lia.
      * destruct a1; [|exact Hreg].
        apply Forall_app. split; [exact Hreg|].
        constructor; [|constructor].
        unfold in_region. simpl. lia.
    + mstep H. auto.
Qed.

Lemma grid_table : forallb grid_check (map Z.of_nat (seq 1 60)) = true.
Proof. vm_compute. reflexivity. Qed.

Lemma grid_checked (n : Z) : 1 <= n <= 60 -> grid_check n = true.
Proof.
  intros Hn. pose proof grid_table as T.
  rewrite forallb_forall in T. apply T.
  apply in_map_iff. exists (Z.to_nat n). split; [lia|].
  apply in_seq. lia.
Qed.

Lemma grid_facts (n : Z) :
  1 <= n <= 60 ->
  grid n = Ok (grid_spec n) /\ len (grid_spec n) = n /\
  Forall (in_region 32) (grid_spec n) /\ columns (grid_spec n) = Z.sqrt n.
Proof.
  intros Hn. pose proof (grid_checked n Hn) as C.
  unfold grid_check in C. destruct (grid n) as [ps|e]; [|discriminate].
  repeat (apply andb_prop in C; let C' := fresh "C" in destruct C as [C C']).
  apply points_eqb_eq in C. subst ps.
  repeat split.
  - apply Z.eqb_eq. assumption.
  - apply Forall_forall. intros p Hp.
    apply in_regionb_true.
    match goal with H : forallb _ _ = true |- _ =>
      rewrite forallb_forall in H; apply H; exact Hp end.
  - apply Z.eqb_eq. assumption.
Qed.

(** Whenever [generate_positions] returns, it returns [n] points. *)
Lemma generate_positions_length (n pad : Z) (t t' : tape) (ps : list point) :
  1 <= n <= 60 ->
  generate_positions n pad t = Ok (ps, t') -> len ps = n.
Proof.
  intros Hn H. unfold generate_positions in H. mstep H.
  apply place_spec in Ha; [|unfold len; simpl; lia|constructor].
  destruct Ha as [Hle _].
  destruct (len a <? n) eqn:E.
  - mstep H. destruct (grid_facts n Hn) as (G & L & _).
    rewrite G in H. inversion H. subst. exact L.
  - mstep H. lia.
Qed.

Lemma range_forallb (P : Z -> bool) (k : Z) :
  forallb P (range k) = true -> forall z, 0 <= z < k -> P z = true.
Proof.
  intros H z Hz. rewrite forallb_forall in H. apply H.
  unfold range. apply in_map_iff. exists (Z.to_nat z). split; [lia|].
  apply in_seq. lia.
Qed.

Lemma pad_scale_ok (pad : Z) :
  0 <= pad <= 32 -> exists r, int_mul_float pad f2_5 = Ok r.
Proof.
  intros Hp.
  pose proof (range_forallb
                (fun z => match int_mul_float z f2_5 with
                          | Ok _ => true | Raise _ => false end) 33) as T.
  specialize (T eq_refl pad). simpl in T.
  assert (Hlt : 0 <= pad < 33) by lia. specialize (T Hlt).
  destruct (int_mul_float pad f2_5) as [r|e]; [eauto|discriminate].
Qed.

Lemma all_clear_total (pad x y : Z) (ps : list point) :
  (exists r, int_mul_float pad f2_5 = Ok r) ->
  exists b, all_clear pad x y ps = Ok b.
Proof.
  intros [r Hr]. induction ps as [|[px py] ps IH]; simpl; [eauto|].
  rewrite Hr. simpl.
  destruct (int_lt_float _ _); [eauto | exact IH].
Qed.

Lemma randint_run (a b r : Z) (t : tape) :
  a <= b -> randint a b (r :: t) = Ok (a + r mod (b + 1 - a), t).
Proof.
  intros H. unfold randint, randrange2.
  replace (0 <? b + 1 - a) with true by (symmetry; apply Z.ltb_lt; lia).
  reflexivity.
Qed.

(** With two draws left for every remaining attempt the random phase
    runs to its end. *)
Lemma place_total (n pad : Z) :
  0 <= pad <= 32 ->
  forall (fuel : nat) (ps : list point) (t : tape),
    (2 * fuel <= List.length t)%nat ->
    exists ps' t', place fuel n pad ps t = Ok (ps', t').
Proof.
  intros Hp. induction fuel as [|fuel IH]; intros ps t Ht; cbn [place].
  - unfold ret. eauto.
  - destruct (len ps <? n); [|unfold ret; eauto].
    destruct t as [|r1 [|r2 t2]]; simpl in Ht; try lia.
    unfold bind at 1. rewrite randint_run by (unfold MARGIN, WIDTH; lia).
    unfold bind at 1. rewrite randint_run by (unfold MARGIN, HEIGHT; lia).
    destruct (all_clear_total pad
                (MARGIN + pad + r1 mod (WIDTH - MARGIN - pad + 1 - (MARGIN + pad)))
                (MARGIN + pad + 40 +
                   r2 mod (HEIGHT - MARGIN - pad + 1 - (MARGIN + pad + 40)))
                ps (pad_scale_ok pad Hp)) as [b Hb].
    unfold bind at 1. rewrite Hb. simpl.
    apply IH. lia.
Qed.

(** C3 (amended): for the counts and paddings the round generator asks
    for, [1 <= n <= 60] and [0 <= pad <= 32], and a generator that can
    serve every attempt, [generate_positions] returns exactly [n]
    positions, each inside the padded sub-region, on the random path and
    on the grid path alike. *)
Theorem generate_positions_contract (n pad : Z) (t : tape) :
  1 <= n <= 60 -> 0 <= pad <= 32 -> 400 * n <= len t ->
  positions_contract n pad t.
Proof.
  intros Hn Hp Ht.
  destruct (place_total n pad Hp (Z.to_nat (n * 200)) [] t) as (acc & t' & Hacc).
  { unfold len in Ht. lia. }
  pose proof (place_spec _ _ _ _ _ _ _ Hacc) as S.
  destruct S as [Hle Hreg]; [unfold len; simpl; lia | constructor |].
  unfold positions_contract, generate_positions, bind. rewrite Hacc.
  destruct (len acc <? n) eqn:E.
  - destruct (grid_facts n Hn) as (G & L & R & _).
    rewrite G. simpl. exists (grid_spec n), t'. repeat split; auto.
    eapply Forall_impl; [|exact R].
    intros p. apply in_region_shrink. lia.
  - exists acc, t'. repeat split; auto. lia.
Qed.

Lemma generate_positions_contract_witness :
  positions_contract 10 32 (spread10 ++ stuck 3980).
Proof.
  apply generate_positions_contract; [lia | lia |].
  apply Z.leb_le. vm_compute. reflexivity.
Defined.

(** C3 as stated fails outside that range: with [n = 2] and [pad = 200]
    no second point can be accepted, and the grid puts a point at
    [y = 486], below the padded region, which ends at [460]. *)
Lemma generate_positions_leaves_region :
  ~ positions_contract 2 200 (stuck 800).
Proof.
  intros (ps & t' & H & _ & Hreg).
  vm_compute in H. inversion H; subst ps t'; clear H.
  inversion Hreg as [|p l _ Hrest]; subst.
  inversion Hrest as [|p l Hp _]; subst.
  unfold in_region, MARGIN, HEIGHT in Hp. simpl in Hp. lia.
Qed.

Lemma grid_rows_hold (n : Z) :
  1 <= n ->
  n <= grid_rows_count n * grid_cols n /\
  (grid_rows_count n - 1) * grid_cols n < n.
Proof.
  intros Hn. unfold grid_rows_count, grid_cols.
  assert (Hc : 1 <= Z.sqrt n).
  { apply Z.sqrt_le_square; lia. }
  pose proof (Z.div_mod (n + Z.sqrt n - 1) (Z.sqrt n)) as D.
  pose proof (Z.mod_pos_bound (n + Z.sqrt n - 1) (Z.sqrt n)) as B.
  nia.
Qed.

(** C7 (amended): for [1 <= n <= 60], when the random phase ends with
    fewer than [n] points, [generate_positions] drops them and returns
    exactly the [n] grid points of [grid_spec]: [floor(sqrt(n))] columns
    (not the ceiling), [ceil(n / cols)] rows, which is the least number
    of rows that holds [n], spaced by [840 / (cols + 1)] and
    [520 / (rows + 1)] inside the margins. *)
Theorem generate_positions_fallback (n pad : Z) (t t' : tape)
  (acc : list point) :
  1 <= n <= 60 ->
  place (Z.to_nat (n * 200)) n pad [] t = Ok (acc, t') ->
  len acc < n ->
  generate_positions n pad t = Ok (grid_spec n, t') /\
  len (grid_spec n) = n /\
  columns (grid_spec n) = Z.sqrt n /\
  n <= grid_rows_count n * grid_cols n /\
  (grid_rows_count n - 1) * grid_cols n < n.
Proof.
  intros Hn Hacc Hlt.
  destruct (grid_facts n Hn) as (G & L & _ & C).
  split; [|split; [exact L | split; [exact C | apply grid_rows_hold; lia]]].
  unfold generate_positions, bind. rewrite Hacc.
  replace (len acc <? n) with true by (symmetry; apply Z.ltb_lt; exact Hlt).
  rewrite G. reflexivity.
Qed.

Lemma generate_positions_fallback_witness :
  generate_positions 8 200 (stuck 3200) = Ok (grid_spec 8, []) /\
  len (grid_spec 8) = 8 /\
  columns (grid_spec 8) = Z.sqrt 8 /\
  8 <= grid_rows_count 8 * grid_cols 8 /\
  (grid_rows_count 8 - 1) * grid_cols 8 < 8.
Proof.
  apply (generate_positions_fallback 8 200 (stuck 3200) [] [(260, 300)]).
  - lia.
  - vm_compute. reflexivity.
  - vm_compute. reflexivity.
Defined.

(** C7 as stated fails: for [n = 8] the fallback grid has 2 columns,
    while [ceil(sqrt(8)) = 3]. *)
Lemma fallback_columns_not_ceiling :
  ~ fallback_contract Z.sqrt_up 8 200 (stuck 3200).
Proof.
  intros H.
  destruct (H [(260, 300)] []) as (ps & Hps & _ & Hcols).
  - vm_compute. reflexivity.
  - vm_compute. reflexivity.
  - vm_compute in Hps. inversion Hps; subst ps; clear Hps.
    vm_compute in Hcols. discriminate Hcols.
Qed.



(** Two limits of the layout contract outside the inputs in use. A
    padding above 280 leaves no ordinate to draw, and [rng.randint]
    raises [ValueError]; and for a count near [2^54] the float square
    root rounds up past the integer one. *)
Lemma generate_positions_empty_range (r : Z) (t : tape) :
  generate_positions 1 281 (r :: t) = Raise ValueError.
Proof. reflexivity. Qed.

Lemma float_sqrt_rounds_up :
  (s <~ math_sqrt (2 ^ 54 - 1) ;; int_of_float s) = Ok (2 ^ 27) /\
  Z.sqrt (2 ^ 54 - 1) = 2 ^ 27 - 1.
Proof. split; vm_compute; reflexivity. Qed.

(* ================================================================== *)
(** ** Rounding never loses a positive value that is not tiny *)

Lemma digits2_pos_bounds (p : positive) :
  2 ^ (Zpos (digits2_pos p) - 1) <= Zpos p < 2 ^ Zpos (digits2_pos p).
Proof.
  induction p as [p IH|p IH|]; cbn [digits2_pos].
  - rewrite Pos2Z.inj_succ.
    replace (Z.succ (Zpos (digits2_pos p)) - 1) with (Zpos (digits2_pos p)) by lia.
    rewrite Z.pow_succ_r by lia.
    replace (Zpos (digits2_pos p)) with (Z.succ (Zpos (digits2_pos p) - 1)) at 1 by lia.
    rewrite Z.pow_succ_r by lia. lia.
  - rewrite Pos2Z.inj_succ.
    replace (Z.succ (Zpos (digits2_pos p)) - 1) with (Zpos (digits2_pos p)) by lia.
    rewrite Z.pow_succ_r by lia.
    replace (Zpos (digits2_pos p)) with (Z.succ (Zpos (digits2_pos p) - 1)) at 1 by lia.
    rewrite Z.pow_succ_r by lia. lia.
  - simpl. lia.
Qed.













Lemma int_of_float_pos (m : positive) (e n : Z) :
  int_of_float (S754_finite false m e) = Ok n -> 0 <= n.
Proof.
  unfold int_of_float, signed. intros H.
  assert (En : n = if 0 <=? e then Zpos m * 2 ^ e
                   else Z.quot (Zpos m) (2 ^ (- e))) by congruence.
  subst n. clear H.
  destruct (0 <=? e) eqn:E.
  - apply Z.leb_le in E. apply Z.mul_nonneg_nonneg; [lia|].
    apply Z.pow_nonneg. lia.
  - apply Z.leb_gt in E. apply Z.quot_pos; [lia|].
    apply Z.pow_pos_nonneg; lia.
Qed.




(* ================================================================== *)
(** ** Item population *)

Lemma shape_eqb_false (a b : Shape) : shape_eqb a b = false -> a <> b.
Proof. unfold shape_eqb. destruct (Shape_eq_dec a b); [discriminate | auto]. Qed.

Lemma color_eqb_false (a b : Color) : color_eqb a b = false -> a <> b.
Proof. unfold color_eqb. destruct (Color_eq_dec a b); [discriminate | auto]. Qed.

(** The resampling loop ends on a value different from the target. *)
Lemma resample_spec {A} (eqb : A -> A -> bool) (pool : list A) (target : A) :
  forall (fuel : nat) (cur a : A) (t t' : tape),
    resample eqb pool fuel target cur t = Ok (a, t') ->
    eqb a target = false.
Proof.
  induction fuel as [|fuel IH]; intros cur a t t' H; cbn [resample] in H.
  - destruct (eqb cur target) eqn:E.
    + mstep H.
    + mstep H. exact E.
  - destruct (eqb cur target) eqn:E.
    + mstep H. eapply IH. exact H.
    + mstep H. exact E.
Qed.

Lemma until_different_spec {A} (eqb : A -> A -> bool) (pool : list A)
  (target a : A) (t t' : tape) :
  until_different eqb pool target t = Ok (a, t') -> eqb a target = false.
Proof. unfold until_different. apply resample_spec. Qed.

Lemma target_item_spec (mode : Mode) (sz : Z) (rot : float) (ts : Shape)
  (tc : Color) (x y : Z) (t t' : tape) (it : Item.t) :
  target_item mode sz rot ts tc x y t = Ok (it, t') ->
  is_target_item mode sz ts tc it.
Proof.
  unfold target_item. intros H. mstep H. mstep H. mstep Ha0. mstep H.
  unfold is_target_item, target_size. cbn [Item.is_target Item.shape
    Item.color_name Item.size].
  repeat split.
  destruct (mode_eqb mode mixed); [assumption | congruence].
Qed.

Lemma distractor_look_spec (mode : Mode) (het : float) (d : Distract)
  (t t' : tape) (s : Shape) (c : Color) :
  distractor_look mode het d t = Ok ((s, c), t') -> derived_from d s c.
Proof.
  unfold distractor_look. intros H. mstep H. destruct a as [s0 c0].
  assert (Harch : match d with
                  | Fixed ds dc => s0 = ds /\ c0 = dc
                  | Pairs l => In (s0, c0) l
                  end).
  { destruct (mode_eqb mode conjunction); destruct d as [ds dc|l].
    - mstep Ha.
    - apply choice_ok in Ha. exact Ha.
    - apply ret_ok in Ha. destruct Ha as [E _]. inversion E. auto.
    - mstep Ha. }
  clear Ha. mstep H.
  assert (Hone : s = s0 \/ c = c0).
  { destruct (flt a (fmul het f0_35)).
    - mstep H. destruct (flt a0 f0_5).
      + mstep H. apply ret_ok in H. destruct H as [E _]. inversion E. auto.
      + mstep H. apply ret_ok in H. destruct H as [E _]. inversion E. auto.
    - apply ret_ok in H. destruct H as [E _]. inversion E. auto. }
  destruct d as [ds dc|l]; cbn [derived_from].
  - destruct Harch; subst. tauto.
  - exists (s0, c0). split; [exact Harch|]. exact Hone.
Qed.

Lemma distractor_item_spec (mode : Mode) (sz : Z) (het rot : float)
  (d : Distract) (x y : Z) (t t' : tape) (it : Item.t) :
  distractor_item mode sz het rot d x y t = Ok (it, t') ->
  is_distractor_item sz d it.
Proof.
  unfold distractor_item. intros H. mstep H. destruct a as [s c].
  mstep H. mstep H. apply distractor_look_spec in Ha.
  unfold is_distractor_item. cbn [Item.is_target Item.size Item.shape
    Item.color_name]. auto.
Qed.

Lemma populate_spec (mode : Mode) (sz : Z) (het rot : float) (ts : Shape)
  (tc : Color) (d : Distract) (ti : Z) :
  forall (positions : list point) (i : Z) (t t' : tape) (items : list Item.t),
    populate mode sz het rot ts tc d ti i positions t = Ok (items, t') ->
    List.length items = List.length positions /\
    forall k it, nth_error items k = Some it ->
      if i + Z.of_nat k =? ti then is_target_item mode sz ts tc it
      else is_distractor_item sz d it.
Proof.
  induction positions as [|[x y] rest IH]; intros i t t' items H;
    cbn [populate] in H.
  - mstep H. split; [reflexivity|].
    intros [|k] it Hk; discriminate Hk.
  - mstep H. mstep H. mstep H.
    apply IH in Ha0. destruct Ha0 as [Hlen Hall].
    split; [simpl; congruence|].
    intros [|k] it Hk; cbn [nth_error] in Hk.
    + inversion Hk; subst it. rewrite Z.add_0_r.
      destruct (i =? ti).
      * eapply target_item_spec. exact Ha.
      * eapply distractor_item_spec. exact Ha.
    + specialize (Hall k it Hk).
      replace (i + Z.of_nat (S k)) with (i + 1 + Z.of_nat k) by lia.
      exact Hall.
Qed.

(* ================================================================== *)
(** ** Crowd injection *)

Lemma crowd_item_spec (sz : Z) (rot : float) (tx ty : Z) (t t' : tape)
  (it : Item.t) :
  crowd_item sz rot tx ty t = Ok (it, t') -> is_crowd_item sz it.
Proof.
  unfold crowd_item. intros H. mstep H. destruct a as [dx dy].
  mstep H. mstep H. mstep H. mstep H.
  unfold is_crowd_item. cbn [Item.is_target Item.size]. auto.
Qed.

Lemma crowd_loop_spec (sz : Z) (rot : float) (tx ty : Z) :
  forall (k : nat) (items items' : list Item.t) (t t' : tape),
    crowd_loop sz rot k tx ty items t = Ok (items', t') ->
    exists extra, items' = items ++ extra /\ List.length extra = k /\
                  Forall (is_crowd_item sz) extra.
Proof.
  induction k as [|k IH]; intros items items' t t' H; cbn [crowd_loop] in H.
  - mstep H. exists []. rewrite app_nil_r. auto.
  - mstep H. apply crowd_item_spec in Ha.
    apply IH in H. destruct H as (extra & -> & Hlen & Hall).
    exists (a :: extra). rewrite <- app_assoc. simpl.
    repeat split; auto.
Qed.

Lemma inject_crowd_spec (sz : Z) (rot crowd : float) (ti : Z)
  (items items' : list Item.t) (t t' : tape) :
  inject_crowd sz rot crowd ti items t = Ok (items', t') ->
  5 <= len items ->
  exists extra, items' = items ++ extra /\
    Forall (is_crowd_item sz) extra /\
    (float_gt_int crowd 0 = true ->
     exists n, crowd_count crowd = Ok n /\ List.length extra = Z.to_nat n).
Proof.
  unfold inject_crowd. intros H Hlen.
  replace (5 <=? len items) with true in H by (symmetry; apply Z.leb_le; exact Hlen).
  rewrite andb_true_r in H.
  destruct (float_gt_int crowd 0) eqn:Ec.
  - destruct (nth_error items (Z.to_nat ti)) as [tgt|]; [|mstep H].
    mstep H. mstep Ha.
    apply crowd_loop_spec in H. destruct H as (extra & -> & Hl & Hall).
    exists extra. repeat split; auto.
    intros _. exists a. auto.
  - mstep H. exists []. rewrite app_nil_r.
    repeat split; auto. discriminate.
Qed.

(* ================================================================== *)
(** ** One round *)

Lemma build_round_spec (mode : Mode) (level : Z) (het rot crowd : float)
  (positions : list point) (ts : Shape) (tc : Color) (d : Distract)
  (t t' : tape) (items : list Item.t) (rule : Rule) :
  build_round mode level het rot crowd positions ts tc d t
    = Ok ((items, rule), t') ->
  1 <= level -> len positions = set_size level ->
  round_shape mode level ts tc d crowd items rule.
Proof.
  unfold build_round. intros H Hl Hpos.
  pose proof (set_size_bounds level Hl) as Hs.
  mstep H. mstep H. mstep H. mstep H. mstep Ha2.
  apply ret_ok in H. destruct H as [E _]. inversion E; subst items rule; clear E.
  apply randrange_ok in Ha.
  apply populate_spec in Ha0. destruct Ha0 as [Hlen Hall].
  assert (Hbase : len a0 = set_size level) by (unfold len in *; lia).
  apply inject_crowd_spec in Ha1; [|lia].
  destruct Ha1 as (extra & -> & Hcrowd & Hcount).
  destruct (nth_error a0 (Z.to_nat a)) as [tgt|] eqn:Et.
  2:{ apply nth_error_None in Et. unfold len in Hbase. lia. }
  pose proof (Hall _ _ Et) as T.
  replace (0 + Z.of_nat (Z.to_nat a) =? a) with true in T
    by (symmetry; apply Z.eqb_eq; lia).
  exists a, a0, extra, tgt.
  split; [reflexivity|]. split; [exact Hbase|]. split; [exact Ha|].
  split; [exact Et|]. split; [exact T|]. split.
  - intros k it Hk Hne. pose proof (Hall _ _ Hk) as D.
    replace (0 + Z.of_nat k =? a) with false in D
      by (symmetry; apply Z.eqb_neq; lia).
    exact D.
  - split; [exact Hcrowd|]. split; [reflexivity | exact Hcount].
Qed.

(* ================================================================== *)
(** ** [make_items] *)

(** The recursion equation of [make_items]. *)
Lemma make_items_unfold (mode : Mode) (level : Z) (t : tape) :
  make_items mode level t = make_items_with make_items mode level t.
Proof. destruct mode; reflexivity. Qed.

(** A successful call of the body built a round under [mode], or, in
    mixed mode, returned what [self] returned for a simpler mode. *)
Lemma make_items_with_inv (self : Mode -> Z -> M (list Item.t * Rule))
  (mode : Mode) (level : Z) (t t' : tape) (items : list Item.t) (rule : Rule) :
  make_items_with self mode level t = Ok ((items, rule), t') ->
  1 <= level ->
  (exists ts tc d crowd,
      crowding level = Ok crowd /\ rule_selected mode ts tc d /\
      round_shape mode level ts tc d crowd items rule) \/
  (mode = mixed /\
   exists m' t1, m' <> mixed /\ self m' level t1 = Ok ((items, rule), t')).
Proof.
  unfold make_items_with. intros H Hl.
  pose proof (set_size_bounds level Hl) as Hs.
  mstep H. mstep Ha. mstep H. mstep Ha0. mstep H. mstep Ha1. mstep H.
  apply generate_positions_length in Ha2; [|lia].
  destruct mode.
  - (* classic *)
    left. mstep H. mstep H. destruct (flt a4 f0_5).
    + mstep H. mstep H.
      apply until_different_spec in Ha5. apply shape_eqb_false in Ha5.
      apply build_round_spec in H; auto.
      exists a3, a6, (Fixed a5 a6), a1. repeat split; auto.
      exists a5, a6. split; [reflexivity|]. left. auto.
    + mstep H. mstep H.
      apply until_different_spec in Ha6. apply color_eqb_false in Ha6.
      apply build_round_spec in H; auto.
      exists a3, a5, (Fixed a3 a6), a1. repeat split; auto.
      exists a3, a6. split; [reflexivity|]. right. auto.
  - (* conjunction *)
    left. mstep H. mstep H. mstep H. mstep H.
    apply choice_ok in Ha5, Ha6.
    apply filter_In in Ha5, Ha6.
    destruct Ha5 as [_ Hc]. destruct Ha6 as [_ Hs'].
    apply negb_true_iff in Hc, Hs'.
    apply color_eqb_false in Hc. apply shape_eqb_false in Hs'.
    apply build_round_spec in H; auto.
    exists a3, a4, (Pairs [(a3, a5); (a6, a4)]), a1. repeat split; auto.
    exists a5, a6. auto.
  - (* mixed *)
    mstep H. destruct (flt a3 f0_65).
    + right. split; [reflexivity|]. exists classic. eexists.
      split; [discriminate | exact H].
    + mstep H. destruct (flt a4 f0_95).
      * right. split; [reflexivity|]. exists conjunction. eexists.
        split; [discriminate | exact H].
      * left. mstep H. mstep H.
        apply build_round_spec in H; auto.
        exists a5, a6, (Fixed a5 a6), a1. repeat split; auto.
Qed.

(** Every round [make_items] returns was built under some mode [mode'],
    the requested one unless a mixed call delegated. *)
Lemma make_items_inv (mode : Mode) (level : Z) (t t' : tape)
  (items : list Item.t) (rule : Rule) :
  make_items mode level t = Ok ((items, rule), t') ->
  1 <= level ->
  exists mode' ts tc d crowd,
    crowding level = Ok crowd /\ rule_selected mode' ts tc d /\
    round_shape mode' level ts tc d crowd items rule /\
    (mode' = mode \/ (mode = mixed /\ mode' <> mixed)).
Proof.
  intros H Hl. unfold make_items in H.
  apply make_items_with_inv in H; [|exact Hl].
  destruct H as [(ts & tc & d & crowd & Hc & Hr & Hs)
                |(-> & m' & t1 & Hm' & H)].
  - exists mode, ts, tc, d, crowd.
    split; [exact Hc|]. split; [exact Hr|]. split; [exact Hs|].
    left. reflexivity.
  - apply make_items_with_inv in H; [|exact Hl].
    destruct H as [(ts & tc & d & crowd & Hc & Hr & Hs)
                  |(-> & _)]; [|congruence].
    exists m', ts, tc, d, crowd.
    split; [exact Hc|]. split; [exact Hr|]. split; [exact Hs|].
    right. split; [reflexivity | exact Hm'].
Qed.

(* ================================================================== *)
(** ** Anatomy of a round *)

Lemma filter_none (l : list Item.t) :
  (forall it, In it l -> Item.is_target it = false) ->
  filter Item.is_target l = [].
Proof.
  induction l as [|a l IH]; intros H; simpl; [reflexivity|].
  rewrite (H a) by (left; reflexivity).
  apply IH. intros it Hit. apply H. right. exact Hit.
Qed.

Lemma filter_single (l : list Item.t) :
  forall (j : nat) (x : Item.t),
    nth_error l j = Some x -> Item.is_target x = true ->
    (forall k y, nth_error l k = Some y -> k <> j ->
                 Item.is_target y = false) ->
    filter Item.is_target l = [x].
Proof.
  induction l as [|a l IH]; intros j x Hj Hx Hothers.
  - destruct j; discriminate Hj.
  - destruct j as [|j]; cbn [nth_error] in Hj; cbn [filter].
    + inversion Hj; subst a. rewrite Hx. f_equal.
      apply filter_none. intros it Hit.
      apply In_nth_error in Hit. destruct Hit as [k Hk].
      apply (Hothers (S k) it); [exact Hk | discriminate].
    + rewrite (Hothers 0%nat a) by (try reflexivity; discriminate).
      apply (IH j x Hj Hx). intros k y Hk Hne.
      apply (Hothers (S k) y); [exact Hk | congruence].
Qed.

Section Anatomy.
Variables (mode : Mode) (level : Z) (ts : Shape) (tc : Color)
          (d : Distract) (crowd : float) (items : list Item.t)
          (rule : Rule).
Hypothesis Hshape : round_shape mode level ts tc d crowd items rule.

(** The base items and the crowd items of a round, with its target. *)
Lemma round_parts :
  exists tgt,
    In tgt (base_items level items) /\
    is_target_item mode (size level) ts tc tgt /\
    targets items = [tgt] /\
    len (base_items level items) = set_size level /\
    items = base_items level items ++ crowd_items level items /\
    (forall it, In it (base_items level items) ->
                Item.is_target it = false ->
                is_distractor_item (size level) d it) /\
    Forall (is_crowd_item (size level)) (crowd_items level items) /\
    rule_mode rule = mode /\
    (float_gt_int crowd 0 = true ->
     exists n, crowd_count crowd = Ok n /\
               List.length (crowd_items level items) = Z.to_nat n).
Proof.
  destruct Hshape as (ti & base & extra & tgt & -> & Hlen & Hti & Hnth &
                      Htgt & Hdis & Hcrowd & Hmode & Hcount).
  assert (Hn : Z.to_nat (set_size level) = List.length base)
    by (unfold len in Hlen; lia).
  assert (Hb : base_items level (base ++ extra) = base).
  { unfold base_items. rewrite Hn. rewrite firstn_app, Nat.sub_diag.
    rewrite firstn_all. cbn [firstn]. apply app_nil_r. }
  assert (Hc : crowd_items level (base ++ extra) = extra).
  { unfold crowd_items. rewrite Hn. rewrite skipn_app, Nat.sub_diag.
    rewrite skipn_all. reflexivity. }
  rewrite Hb, Hc. exists tgt.
  split; [eapply nth_error_In; exact Hnth|].
  split; [exact Htgt|].
  split.
  { unfold targets. rewrite filter_app.
    rewrite (filter_none extra).
    - rewrite app_nil_r. apply (filter_single base (Z.to_nat ti) tgt Hnth).
      + apply Htgt.
      + intros k y Hk Hne. apply (Hdis k y Hk Hne).
    - intros x Hx. rewrite Forall_forall in Hcrowd.
      apply (Hcrowd x Hx). }
  split; [exact Hlen|]. split; [reflexivity|].
  split; [|split; [exact Hcrowd | split; [exact Hmode | exact Hcount]]].
  intros x Hx Hfalse. apply In_nth_error in Hx. destruct Hx as [k Hk].
  destruct (Nat.eq_dec k (Z.to_nat ti)) as [->|Hne].
  - rewrite Hnth in Hk. inversion Hk; subst x.
    destruct Htgt as [Ht _]. congruence.
  - apply (Hdis k x Hk Hne).
Qed.
End Anatomy.

(* ================================================================== *)
(** ** The round generator's guarantees *)

(** C1: for every mode and every level from 1 on, the item list that
    [make_items] returns has exactly one item with [is_target = true]; it
    is one of the base items, and no crowd item is a target. *)
Theorem exactly_one_target (mode : Mode) (level : Z) (t t' : tape)
  (items : list Item.t) (rule : Rule) :
  1 <= level ->
  make_items mode level t = Ok ((items, rule), t') ->
  List.length (targets items) = 1%nat /\
  (exists tgt, targets items = [tgt] /\ In tgt (base_items level items)) /\
  Forall (fun it => Item.is_target it = false) (crowd_items level items).
Proof.
  intros Hl H.
  destruct (make_items_inv _ _ _ _ _ _ H Hl)
    as (mode' & ts & tc & d & crowd & _ & _ & Hshape & _).
  destruct (round_parts _ _ _ _ _ _ _ _ Hshape)
    as (tgt & Hin & _ & Htargets & _ & _ & _ & Hcrowd & _).
  split; [rewrite Htargets; reflexivity|].
  split; [exists tgt; auto|].
  eapply Forall_impl; [|exact Hcrowd].
  intros it Hit. apply Hit.
Qed.

Lemma exactly_one_target_witness :
  exists items rule t',
    make_items mixed 1 tape_mixed_oddball = Ok ((items, rule), t') /\
    List.length (targets items) = 1%nat.
Proof.
  eexists _, _, _.
  split; [vm_compute; reflexivity|].
  eapply (exactly_one_target mixed 1 tape_mixed_oddball).
  - lia.
  - vm_compute. reflexivity.
Defined.

(** The heterogeneity mutation is what separates a distractor from its
    archetype: when the heterogeneity draw is not below
    [heterogeneity*0.35], a fixed archetype is returned unchanged. *)
Lemma distractor_look_unmutated (mode : Mode) (het : float) (ds : Shape)
  (dc : Color) (r : Z) (t : tape) :
  mode <> conjunction ->
  flt (binary_normalize prec emax (r mod 2 ^ 53) (-53) false)
      (fmul het f0_35) = false ->
  distractor_look mode het (Fixed ds dc) (r :: t) = Ok ((ds, dc), t).
Proof.
  intros Hm Hu. unfold distractor_look, mode_eqb.
  destruct (Mode_eq_dec mode conjunction) as [E|_]; [contradiction|].
  unfold bind at 1. unfold ret at 1.
  unfold bind at 1. unfold random, bind at 1, draw, ret at 1.
  rewrite Hu. reflexivity.
Qed.




(** C5 (amended): in classic mode the distractor archetype
    [(distract_shape, distract_color)] differs from the target in exactly
    one of shape and color, and every non-crowd distractor keeps the
    shape or the color of that archetype (it is the archetype, or the
    archetype with one feature redrawn by the heterogeneity mutation). *)
Theorem classic_archetype (level : Z) (t t' : tape)
  (items : list Item.t) (rule : Rule) :
  1 <= level ->
  make_items classic level t = Ok ((items, rule), t') ->
  exists tgt ds dc,
    targets items = [tgt] /\
    ((ds <> Item.shape tgt /\ dc = Item.color_name tgt) \/
     (ds = Item.shape tgt /\ dc <> Item.color_name tgt)) /\
    forall it,
      In it (base_items level items) -> Item.is_target it = false ->
      Item.shape it = ds \/ Item.color_name it = dc.
Proof.
  intros Hl H.
  destruct (make_items_inv _ _ _ _ _ _ H Hl)
    as (mode' & ts & tc & d & crowd & _ & Hrule & Hshape & Hmode).
  assert (mode' = classic) by (destruct Hmode as [E|[E _]]; congruence).
  subst mode'. cbn [rule_selected] in Hrule.
  destruct Hrule as (ds & dc & -> & Hone).
  destruct (round_parts _ _ _ _ _ _ _ _ Hshape)
    as (tgt & _ & (_ & Hts & Htc & _) & Htargets & _ & _ & Hdis & _ & _).
  exists tgt, ds, dc. rewrite Hts, Htc.
  split; [exact Htargets|]. split; [exact Hone|].
  intros it Hit Hfalse. destruct (Hdis it Hit Hfalse) as (_ & _ & Hd).
  exact Hd.
Qed.

Lemma classic_archetype_witness :
  exists items rule t',
    make_items classic 1 tape_classic = Ok ((items, rule), t') /\
    exists tgt ds dc,
    targets items = [tgt] /\
    ((ds <> Item.shape tgt /\ dc = Item.color_name tgt) \/
     (ds = Item.shape tgt /\ dc <> Item.color_name tgt)) /\
    forall it,
      In it (base_items 1 items) -> Item.is_target it = false ->
      Item.shape it = ds \/ Item.color_name it = dc.
Proof.
  eexists _, _, _.
  split; [vm_compute; reflexivity|].
  eapply (classic_archetype 1 tape_classic).
  - lia.
  - vm_compute. reflexivity.
Defined.

(** C5 as stated fails: a green square whose color the heterogeneity
    mutation redraws as blue shares neither the shape nor the color of
    the green-circle target. *)
Lemma classic_mutation_breaks_pop_out :
  ~ classic_pop_out 1 tape_classic_mutated.
Proof.
  intros C.
  destruct (make_items classic 1 tape_classic_mutated)
    as [[[items rule] t']|e] eqn:E; [|vm_compute in E; discriminate E].
  specialize (C items rule t' E).
  vm_compute in E. inversion E; subst items rule t'; clear E.
  edestruct C as [[Hs _]|[_ Hc]].
  - cbn. left. reflexivity.
  - cbn. left. reflexivity.
  - reflexivity.
  - cbn in Hs. discriminate Hs.
  - cbn in Hc. discriminate Hc.
Qed.

Lemma oddball_scale_larger (sz v : Z) :
  12 <= sz <= 26 -> int_scale sz f1_4 = Ok v -> sz < v.
Proof.
  intros Hs Hv.
  pose proof (range_forallb
                (fun z => if z <? 12 then true
                          else match int_scale z f1_4 with
                               | Ok w => z <? w
                               | Raise _ => true
                               end) 27) as T.
  specialize (T eq_refl sz). cbv beta in T.
  assert (Hlt : 0 <= sz < 27) by lia. specialize (T Hlt).
  replace (sz <? 12) with false in T by (symmetry; apply Z.ltb_ge; lia).
  rewrite Hv in T. apply Z.ltb_lt. exact T.
Qed.





(** C6 at a failing input: in a classic round at level 1 (size 26) a
    crowd item drawn at offset [(0, -30)] is inside the radius
    [1.2*size = 31.2], is pushed by [int(1.5*size) = 39] to [(0, 9)], and
    so ends 9 away from the center of the target, still inside the
    radius. *)
Theorem crowd_push_lands_near_target :
  exists items rule t' tgt it,
    make_items classic 1 tape_crowd_near = Ok ((items, rule), t') /\
    targets items = [tgt] /\
    In it (crowd_items 1 items) /\
    Item.x it = Item.x tgt /\ Item.y it = Item.y tgt + 9 /\
    within_radius (size 1) tgt it = true.
Proof.
  eexists _, _, _, _, _.
  split; [vm_compute; reflexivity|].
  split; [vm_compute; reflexivity|].
  split; [vm_compute; right; left; reflexivity|].
  split; [reflexivity|]. split; [reflexivity|].
  vm_compute. reflexivity.
Qed.

(* ================================================================== *)
(** ** The draws of [rng.random()] against a literal *)

Lemma digits2_iter_xO (q p : positive) :
  digits2_pos (Pos.iter xO p q) = (digits2_pos p + q)%positive.
Proof.
  induction q as [|q IH] using Pos.peano_ind.
  - cbn [Pos.iter digits2_pos]. lia.
  - rewrite Pos.iter_succ. cbn [digits2_pos]. rewrite IH. lia.
Qed.

(** A mantissa of exactly 53 digits with an exponent in range is
    already in its format. *)
Lemma binary_round_aux_exact (s : bool) (m : positive) (e : Z) :
  Zpos (digits2_pos m) = 53 -> emin <= e <= emax - prec ->
  binary_round_aux prec emax s (Zpos m) e loc_Exact = S754_finite s m e.
Proof.
  intros Hd He.
  assert (Hs : shr_fexp prec emax (Zpos m) e loc_Exact
               = (Build_shr_record (Zpos m) false false, e)).
  { unfold shr_fexp. cbn [Zdigits2 shr_record_of_loc]. rewrite Hd.
    replace (fexp prec emax (53 + e) - e) with 0
      by (unfold fexp, SpecFloat.emin, prec, emax in *; lia).
    reflexivity. }
  unfold binary_round_aux. rewrite Hs.
  cbn [shr_m loc_of_shr_record round_nearest_even]. rewrite Hs.
  cbn [shr_m].
  replace (e <=? emax - prec) with true by (symmetry; apply Z.leb_le; lia).
  reflexivity.
Qed.

(** [k * 2^-53 < m * 2^-53] is decided on the numerators. *)
Lemma random_lt_literal (k : Z) (m : positive) :
  0 <= k < 2 ^ 53 -> 2 ^ 52 <= Zpos m ->
  flt (binary_normalize prec emax k (-53) false) (S754_finite false m (-53))
  = (k <? Zpos m).
Proof.
  intros Hk Hm. destruct k as [|p|p]; try lia.
  - reflexivity.
  - unfold binary_normalize, binary_round.
    pose proof (digits2_pos_bounds p) as B.
    set (dg := Zpos (digits2_pos p)) in *.
    assert (Hdg : 1 <= dg <= 53).
    { split; [unfold dg; lia|].
      assert (Hlt : 2 ^ (dg - 1) < 2 ^ 53) by lia.
      apply Z.pow_lt_mono_r_iff in Hlt; lia. }
    replace (fexp prec emax (dg + -53)) with (dg - 106)
      by (unfold fexp, SpecFloat.emin, prec, emax; lia).
    unfold shl_align.
    destruct (dg - 106 - -53) as [|q|q] eqn:Eq; try lia.
    + assert (dg = 53) by lia.
      rewrite binary_round_aux_exact
        by (unfold SpecFloat.emin, prec, emax; fold dg; lia).
      unfold flt, SFltb, SFcompare. cbn [Z.compare Pos.compare].
      unfold Z.ltb. cbn [Z.compare]. unfold Pos.compare. reflexivity.
    + assert (Hq : Zpos q = 53 - dg) by lia.
      rewrite binary_round_aux_exact.
      * unfold flt, SFltb, SFcompare.
        replace (dg - 106 ?= -53) with Lt by (symmetry; apply Z.compare_lt_iff; lia).
        symmetry. apply Z.ltb_lt.
        assert (2 ^ dg <= 2 ^ 52) by (apply Z.pow_le_mono_r; lia).
        lia.
      * rewrite digits2_iter_xO. fold dg in Hq |- *. unfold dg in *. lia.
      * unfold SpecFloat.emin, prec, emax. lia.
Qed.

Lemma random_ok (t t' : tape) (u : float) :
  random t = Ok (u, t') ->
  exists k, t = k :: t' /\ 0 <= k mod 2 ^ 53 < 2 ^ 53 /\
            u = binary_normalize prec emax (k mod 2 ^ 53) (-53) false.
Proof.
  unfold random. intros H. mstep H. mstep H.
  apply draw_ok in Ha. exists a. split; [exact Ha|].
  split; [apply Z.mod_pos_bound; lia | reflexivity].
Qed.

(* ================================================================== *)
(** ** The dispatch of mixed mode *)

Lemma round_shape_mode (mode : Mode) (level : Z) (ts : Shape) (tc : Color)
  (d : Distract) (crowd : float) (items : list Item.t) (rule : Rule) :
  round_shape mode level ts tc d crowd items rule -> rule_mode rule = mode.
Proof.
  intros (ti & base & extra & tgt & _ & _ & _ & _ & _ & _ & _ & Hrm & _).
  exact Hrm.
Qed.

(** A call that does not delegate returns a rule carrying its mode. *)
Lemma simple_mode_rule (self : Mode -> Z -> M (list Item.t * Rule))
  (mode : Mode) (level : Z) (t t' : tape) (items : list Item.t)
  (rule : Rule) :
  mode <> mixed -> 1 <= level ->
  make_items_with self mode level t = Ok ((items, rule), t') ->
  rule_mode rule = mode.
Proof.
  intros Hm Hl H. apply make_items_with_inv in H; [|exact Hl].
  destruct H as [(ts & tc & d & crowd & _ & _ & Hs)|(E & _)];
    [|contradiction].
  eapply round_shape_mode. exact Hs.
Qed.

(** Which branch a mixed call takes, in terms of the raw draws that
    follow the layout: the first draw [u1] is tested against 0.65, and
    only when that test fails a second, fresh draw [u2] is tested
    against 0.95. *)
Theorem mixed_dispatch_thresholds (level : Z) (t t' : tape)
  (items : list Item.t) (rule : Rule) :
  1 <= level ->
  make_items mixed level t = Ok ((items, rule), t') ->
  exists positions k1 rest,
    generate_positions (set_size level) (size level + 6) t
      = Ok (positions, k1 :: rest) /\
    (rule_mode rule = classic <-> k1 mod 2 ^ 53 < T65) /\
    (rule_mode rule = conjunction <->
       T65 <= k1 mod 2 ^ 53 /\
       exists k2 rest', rest = k2 :: rest' /\ k2 mod 2 ^ 53 < T95) /\
    (rule_mode rule = mixed <->
       T65 <= k1 mod 2 ^ 53 /\
       exists k2 rest', rest = k2 :: rest' /\ T95 <= k2 mod 2 ^ 53).
Proof.
  intros Hl H. unfold make_items in H. unfold make_items_with at 1 in H.
  pose proof (set_size_bounds level Hl) as Hs.
  mstep H. mstep Ha. mstep H. mstep Ha0. mstep H. mstep Ha1. mstep H.
  assert (Hlen : len a2 = set_size level)
    by (eapply generate_positions_length; [|exact Ha2]; lia).
  mstep H.
  apply random_ok in Ha3. destruct Ha3 as (k1 & -> & Hk1 & ->).
  exists a2, k1. eexists. split; [exact Ha2|].
  assert (L65 : 2 ^ 52 <= T65) by (vm_compute; discriminate).
  assert (L95 : 2 ^ 52 <= T95) by (vm_compute; discriminate).
  change f0_65 with (S754_finite false 5854679515581645 (-53)) in H.
  rewrite (random_lt_literal _ 5854679515581645 Hk1 L65) in H.
  change (Zpos 5854679515581645) with T65 in H.
  destruct (k1 mod 2 ^ 53 <? T65) eqn:E1.
  - apply Z.ltb_lt in E1.
    apply simple_mode_rule in H; [|discriminate|exact Hl].
    rewrite H. repeat split; try discriminate; try (intros; exact E1);
      intros [Hge _]; lia.
  - apply Z.ltb_ge in E1. mstep H.
    apply random_ok in Ha3. destruct Ha3 as (k2 & -> & Hk2 & ->).
    change f0_95 with (S754_finite false 8556839292003942 (-53)) in H.
    rewrite (random_lt_literal _ 8556839292003942 Hk2 L95) in H.
    change (Zpos 8556839292003942) with T95 in H.
    destruct (k2 mod 2 ^ 53 <? T95) eqn:E2.
    + apply Z.ltb_lt in E2.
      apply simple_mode_rule in H; [|discriminate|exact Hl].
      rewrite H. split; [split; [discriminate | lia]|]. split.
      * split; [intros _|reflexivity].
        split; [exact E1|]. exists k2. eexists. split; [reflexivity | assumption].
      * split; [discriminate|].
        intros (_ & k2' & r' & E & Hge). inversion E; subst. lia.
    + apply Z.ltb_ge in E2. mstep H. mstep H.
      apply build_round_spec in H; [|exact Hl|exact Hlen].
      apply round_shape_mode in H.
      rewrite H. split; [split; [discriminate | lia]|]. split.
      * split; [discriminate|].
        intros (_ & k2' & r' & E & Hlt). inversion E; subst. lia.
      * split; [intros _|reflexivity].
        split; [exact E1|]. exists k2. eexists. split; [reflexivity | assumption].
Qed.

(** The measure of each branch over uniform draws [u1, u2] in
    [0, 2^53): classic 65%, conjunction [0.35 * 0.95 = 33.25%], the
    oddball round [0.35 * 0.05 = 1.75%], to within a hundredth of a
    percent. *)
Lemma mixed_dispatch_measure :
  6499 * 2 ^ 53 < 10000 * T65 < 6501 * 2 ^ 53 /\
  3324 * 2 ^ 106 < 10000 * ((2 ^ 53 - T65) * T95) < 3326 * 2 ^ 106 /\
  174 * 2 ^ 106 < 10000 * ((2 ^ 53 - T65) * (2 ^ 53 - T95)) < 176 * 2 ^ 106.
Proof. vm_compute. repeat split; reflexivity. Qed.

(** C2 at a failing input: a mixed call whose first dispatch draw is
    [1 - 2^-53], above 0.95, takes a second draw, [0.5], for the test
    against 0.95 and so delegates to conjunction. *)
Theorem mixed_dispatch_redraws :
  exists items rule t',
    make_items mixed 1 tape_mixed_delegating = Ok ((items, rule), t') /\
    rule_mode rule = conjunction.
Proof.
  eexists _, _, _.
  split; [vm_compute; reflexivity|]. reflexivity.
Qed.

(* ================================================================== *)
(** * Further properties *)

(** ** Layout solver: spacing, distinctness, draws and errors *)

Lemma is_quarters_lt (f : float) (n d : Z) :
  is_quarters f n = true -> int_lt_float d f = (4 * d <? n).
Proof.
  unfold is_quarters, int_lt_float, signed.
  destruct f as [s|s| |[|] m e]; try discriminate.
  - intros H. apply Z.eqb_eq in H. subst n.
    destruct (d <? 0) eqn:E; symmetry;
      [apply Z.ltb_lt; apply Z.ltb_lt in E | apply Z.ltb_ge; apply Z.ltb_ge in E];
      lia.
  - destruct (0 <=? e) eqn:E; intros H; apply Z.eqb_eq in H.
    + subst n.
      destruct (d <? Zpos m * 2 ^ e) eqn:L; symmetry;
        [apply Z.ltb_lt; apply Z.ltb_lt in L | apply Z.ltb_ge; apply Z.ltb_ge in L];
        lia.
    + apply Z.leb_gt in E.
      assert (P : 0 < 2 ^ (- e)) by (apply Z.pow_pos_nonneg; lia).
      destruct (d * 2 ^ (- e) <? Zpos m) eqn:L; symmetry;
        [apply Z.ltb_lt; apply Z.ltb_lt in L | apply Z.ltb_ge; apply Z.ltb_ge in L];
        nia.
Qed.

(** For every padding that leaves a region to draw from, [(pad*2.5)**2]
    is exactly [25 * pad^2 / 4]. *)
Lemma pad_square_exact (pad : Z) :
  0 <= pad <= 280 ->
  exists r, int_mul_float pad f2_5 = Ok r /\
            is_quarters (fsquare r) (25 * (pad * pad)) = true.
Proof.
  intros Hp.
  pose proof (range_forallb
                (fun z => match int_mul_float z f2_5 with
                          | Ok r => is_quarters (fsquare r) (25 * (z * z))
                          | Raise _ => false
                          end) 281) as T.
  assert (C : forallb
                (fun z => match int_mul_float z f2_5 with
                          | Ok r => is_quarters (fsquare r) (25 * (z * z))
                          | Raise _ => false
                          end) (range 281) = true)
    by (vm_compute; reflexivity).
  specialize (T C pad ltac:(lia)). cbv beta in T.
  destruct (int_mul_float pad f2_5) as [r|e]; [|discriminate T].
  exists r. split; [reflexivity | exact T].
Qed.

Lemma too_close_exact (pad x y : Z) (p : point) (b : bool) :
  0 <= pad <= 280 ->
  too_close pad x y p = Ok b ->
  b = (4 * ((fst p - x) ^ 2 + (snd p - y) ^ 2) <? 25 * (pad * pad)).
Proof.
  intros Hp H. destruct p as [px py]. unfold too_close in H.
  destruct (pad_square_exact pad Hp) as (r & Hr & Hq).
  rewrite Hr in H. cbn [rbind] in H.
  rewrite (is_quarters_lt _ _ _ Hq) in H. cbn [fst snd]. congruence.
Qed.

Lemma all_clear_far (pad x y : Z) (ps : list point) :
  0 <= pad <= 280 ->
  all_clear pad x y ps = Ok true ->
  Forall (fun p => far_apart pad p (x, y)) ps.
Proof.
  intros Hp. induction ps as [|p ps IH]; intros H; [constructor|].
  cbn [all_clear] in H. mstep H.
  pose proof (too_close_exact _ _ _ _ _ Hp Ha) as E.
  destruct a; [discriminate H|].
  constructor; [|apply IH; exact H].
  symmetry in E. apply Z.ltb_ge in E. unfold far_apart. cbn [fst snd]. lia.
Qed.

Lemma ForallOrdPairs_snoc {A} (R : A -> A -> Prop) (l : list A) (a : A) :
  ForallOrdPairs R l -> Forall (fun b => R b a) l ->
  ForallOrdPairs R (l ++ [a]).
Proof.
  induction 1 as [|b l Hb Hl IH]; intros Hall; cbn [app].
  - constructor; constructor.
  - inversion Hall; subst. constructor.
    + apply Forall_app. split; [exact Hb | constructor; [assumption | constructor]].
    + apply IH. assumption.
Qed.

Lemma ForallOrdPairs_NoDup {A} (R : A -> A -> Prop) (l : list A) :
  (forall a, ~ R a a) -> ForallOrdPairs R l -> NoDup l.
Proof.
  intros Hirr. induction 1 as [|a l Ha Hl IH]; constructor; [|exact IH].
  intros Hin. rewrite Forall_forall in Ha. exact (Hirr a (Ha a Hin)).
Qed.

(** A successful draw of [rng.randint] takes one draw from a range that
    is not empty. *)
Lemma randint_draws (a b k : Z) (t t' : tape) :
  randint a b t = Ok (k, t') -> a <= b /\ exists r, t = r :: t'.
Proof.
  unfold randint, randrange2. destruct (0 <? b + 1 - a) eqn:E.
  - intros H. mstep H. mstep H. unfold randbelow in Ha0.
    mstep Ha0. mstep Ha0. apply draw_ok in Ha1.
    split; [apply Z.ltb_lt in E; lia | eauto].
  - intros H. mstep H.
Qed.

(** What the random phase keeps: at most [n] points, pairwise at least
    [2.5 * pad] apart, for two draws an attempt. *)
Lemma place_spaced (n pad : Z) :
  0 <= pad <= 280 ->
  forall (fuel : nat) (ps ps' : list point) (t t' : tape),
    place fuel n pad ps t = Ok (ps', t') ->
    ForallOrdPairs (far_apart pad) ps ->
    ForallOrdPairs (far_apart pad) ps'.
Proof.
  intros Hp. induction fuel as [|fuel IH]; intros ps ps' t t' H Hfar;
    cbn [place] in H.
  - mstep H. exact Hfar.
  - destruct (len ps <? n).
    + mstep H. mstep H. mstep H. mstep Ha1.
      apply IH in H; [exact H|].
      destruct a1; [|exact Hfar].
      apply ForallOrdPairs_snoc; [exact Hfar|].
      apply all_clear_far; assumption.
    + mstep H. exact Hfar.
Qed.

Lemma place_draws (n pad : Z) :
  forall (fuel : nat) (ps ps' : list point) (t t' : tape),
    place fuel n pad ps t = Ok (ps', t') ->
    exists used, t = used ++ t' /\
                 (List.length used <= 2 * fuel)%nat /\
                 Nat.even (List.length used) = true.
Proof.
  induction fuel as [|fuel IH]; intros ps ps' t t' H; cbn [place] in H.
  - mstep H. exists []. repeat split; auto.
  - destruct (len ps <? n).
    + mstep H. mstep H. mstep H. mstep Ha1.
      apply randint_draws in Ha, Ha0.
      destruct Ha as (_ & r1 & ->). destruct Ha0 as (_ & r2 & ->).
      apply IH in H. destruct H as (used & -> & Hlen & Hev).
      exists (r1 :: r2 :: used). repeat split.
      * cbn [List.length]. lia.
      * cbn [List.length]. exact Hev.
    + mstep H. exists []. repeat split; auto. cbn. lia.
Qed.

(** A random phase that runs at all has drawn an ordinate, so the
    padding is 280 at most. *)
Lemma place_pad_bound (n pad : Z) (fuel : nat) (ps' : list point)
  (t t' : tape) :
  1 <= n -> place (S fuel) n pad [] t = Ok (ps', t') -> pad <= 280.
Proof.
  intros Hn H. cbn [place] in H.
  replace (len (@nil point) <? n) with true in H
    by (symmetry; apply Z.ltb_lt; unfold len; simpl; lia).
  mstep H. mstep H.
  apply randint_draws in Ha0. destruct Ha0 as [Hr _].
  unfold MARGIN, HEIGHT in Hr. lia.
Qed.

(** X1: on the random path, when the acceptance loop itself gathers the
    [n] points, [generate_positions] returns them and any two of them
    are at least [2.5 * pad] apart. *)
Theorem random_path_spacing (n pad : Z) (t t' : tape) (acc : list point) :
  1 <= n -> 0 <= pad ->
  place (Z.to_nat (n * 200)) n pad [] t = Ok (acc, t') ->
  n <= len acc ->
  generate_positions n pad t = Ok (acc, t') /\
  ForallOrdPairs (far_apart pad) acc.
Proof.
  intros Hn Hp Hacc Hlen. split.
  - unfold generate_positions, bind. rewrite Hacc.
    replace (len acc <? n) with false by (symmetry; apply Z.ltb_ge; lia).
    reflexivity.
  - assert (Hb : pad <= 280).
    { destruct (Z.to_nat (n * 200)) as [|fuel] eqn:F; [lia|].
      eapply place_pad_bound; [exact Hn | exact Hacc]. }
    eapply place_spaced; [|exact Hacc|constructor]. lia.
Qed.

Lemma random_path_spacing_witness :
  generate_positions 10 32 spread10
    = Ok ([(92, 132); (192, 132); (292, 132); (392, 132); (492, 132);
           (592, 132); (692, 132); (792, 132); (92, 232); (192, 232)], []) /\
  ForallOrdPairs (far_apart 32)
    [(92, 132); (192, 132); (292, 132); (392, 132); (492, 132);
     (592, 132); (692, 132); (792, 132); (92, 232); (192, 232)].
Proof.
  apply (random_path_spacing 10 32 spread10).
  - lia.
  - lia.
  - vm_compute. reflexivity.
  - vm_compute. discriminate.
Defined.

(** X2: [generate_positions] takes its draws from the front of the
    generator's sequence, two for each attempt and never more than
    [400 * n] (the cap of [200 * n] attempts); the grid takes none. *)
Theorem generate_positions_draws (n pad : Z) (t t' : tape)
  (ps : list point) :
  generate_positions n pad t = Ok (ps, t') ->
  exists used,
    t = used ++ t' /\ len used <= 400 * Z.max 0 n /\
    Z.even (len used) = true.
Proof.
  unfold generate_positions. intros H. mstep H.
  apply place_draws in Ha. destruct Ha as (used & -> & Hlen & Hev).
  assert (Ht : t' = t0).
  { destruct (len a <? n); mstep H; reflexivity. }
  subst t0. exists used. split; [reflexivity|]. split.
  - unfold len. lia.
  - unfold len. rewrite Z.even_spec. apply Nat.even_spec in Hev.
    destruct Hev as [k Hk]. exists (Z.of_nat k). lia.
Qed.

Lemma generate_positions_draws_witness :
  exists used,
    spread10 ++ [7; 8; 9] = used ++ [7; 8; 9] /\
    len used <= 400 * Z.max 0 10 /\ Z.even (len used) = true.
Proof.
  apply (generate_positions_draws 10 32 (spread10 ++ [7; 8; 9]) [7; 8; 9]
           [(92, 132); (192, 132); (292, 132); (392, 132); (492, 132);
            (592, 132); (692, 132); (792, 132); (92, 232); (192, 232)]).
  vm_compute. reflexivity.
Defined.

(** X3: a count that is not positive gives the empty list, with no
    error and no draw taken, whatever the padding. *)
Theorem generate_positions_nothing (n pad : Z) (t : tape) :
  n <= 0 -> generate_positions n pad t = Ok ([], t).
Proof.
  intros Hn. unfold generate_positions, bind.
  assert (Hp : place (Z.to_nat (n * 200)) n pad [] t = Ok ([], t)).
  { destruct (Z.to_nat (n * 200)); cbn [place]; [reflexivity|].
    replace (len (@nil point) <? n) with false
      by (symmetry; apply Z.ltb_ge; unfold len; simpl; lia).
    reflexivity. }
  rewrite Hp.
  replace (len (@nil point) <? n) with false
    by (symmetry; apply Z.ltb_ge; unfold len; simpl; lia).
  reflexivity.
Qed.

Lemma generate_positions_nothing_witness :
  generate_positions (-3) 500 [1; 2] = Ok ([], [1; 2]).
Proof. apply generate_positions_nothing. lia. Defined.

(** X4: a padding above 280 leaves no ordinate to draw: for a positive
    count and a generator that can serve a draw, the first attempt
    raises [ValueError] (from [rng.randint]) and no list is returned. *)
Theorem generate_positions_padding_too_large (n pad r : Z) (t : tape) :
  1 <= n -> 280 < pad ->
  generate_positions n pad (r :: t) = Raise ValueError.
Proof.
  intros Hn Hp. unfold generate_positions, bind.
  destruct (Z.to_nat (n * 200)) as [|fuel] eqn:F; [lia|].
  cbn [place].
  replace (len (@nil point) <? n) with true
    by (symmetry; apply Z.ltb_lt; unfold len; simpl; lia).
  unfold bind at 1.
  destruct (Z_le_gt_dec (MARGIN + pad) (WIDTH - MARGIN - pad)) as [Hx|Hx].
  - rewrite randint_run by exact Hx.
    unfold bind at 1. unfold randint, randrange2.
    replace (0 <? HEIGHT - MARGIN - pad + 1 - (MARGIN + pad + 40)) with false
      by (symmetry; apply Z.ltb_ge; unfold HEIGHT, MARGIN; lia).
    reflexivity.
  - unfold randint, randrange2.
    replace (0 <? WIDTH - MARGIN - pad + 1 - (MARGIN + pad)) with false
      by (symmetry; apply Z.ltb_ge; lia).
    reflexivity.
Qed.

Lemma generate_positions_padding_too_large_witness :
  generate_positions 8 300 [5; 6] = Raise ValueError.
Proof. apply generate_positions_padding_too_large; lia. Defined.

Lemma grid_distinct_table :
  forallb distinct_check (map Z.of_nat (seq 1 60)) = true.
Proof. vm_compute. reflexivity. Qed.

Lemma grid_distinct (n : Z) : 1 <= n <= 60 -> NoDup (grid_spec n).
Proof.
  intros Hn. pose proof grid_distinct_table as T.
  rewrite forallb_forall in T.
  assert (C : distinct_check n = true).
  { apply T. apply in_map_iff. exists (Z.to_nat n). split; [lia|].
    apply in_seq. lia. }
  unfold distinct_check in C. apply points_eqb_eq in C.
  rewrite <- C. apply NoDup_nodup.
Qed.

Lemma far_apart_irrefl (pad : Z) (p : point) :
  1 <= pad -> ~ far_apart pad p p.
Proof.
  intros Hp. unfold far_apart. rewrite !Z.sub_diag.
  change (0 ^ 2) with 0. intros H. nia.
Qed.

(** X5: for a count up to 60 and a padding of at least 1, the positions
    [generate_positions] returns are pairwise distinct, on the random
    path (by the spacing test) and on the grid path alike. *)
Theorem generate_positions_distinct (n pad : Z) (t t' : tape)
  (ps : list point) :
  1 <= n <= 60 -> 1 <= pad ->
  generate_positions n pad t = Ok (ps, t') ->
  NoDup ps.
Proof.
  intros Hn Hp H. unfold generate_positions in H. mstep H.
  destruct (len a <? n) eqn:E.
  - mstep H. destruct (grid_facts n Hn) as (G & _).
    rewrite G in H. inversion H; subst ps. apply grid_distinct. exact Hn.
  - mstep H.
    assert (Hb : pad <= 280).
    { destruct (Z.to_nat (n * 200)) as [|fuel] eqn:F; [lia|].
      eapply place_pad_bound; [|exact Ha]. lia. }
    apply (ForallOrdPairs_NoDup (far_apart pad)).
    + intros p. apply far_apart_irrefl. exact Hp.
    + eapply place_spaced; [|exact Ha|constructor]. lia.
Qed.

Lemma generate_positions_distinct_witness :
  NoDup (grid_spec 8).
Proof.
  apply (generate_positions_distinct 8 200 (stuck 3200) []).
  - lia.
  - lia.
  - vm_compute. reflexivity.
Defined.

(* ================================================================== *)
(** ** Round generator: layout of the items, rule text, delegation *)

Lemma generate_positions_region (n pad : Z) (t t' : tape) (ps : list point) :
  1 <= n <= 60 -> 0 <= pad <= 32 ->
  generate_positions n pad t = Ok (ps, t') ->
  Forall (in_region pad) ps.
Proof.
  intros Hn Hp H. unfold generate_positions in H. mstep H.
  apply place_spec in Ha; [|unfold len; simpl; lia|constructor].
  destruct Ha as [_ Hreg].
  destruct (len a <? n).
  - mstep H. destruct (grid_facts n Hn) as (G & _ & R & _).
    rewrite G in H. inversion H; subst ps.
    eapply Forall_impl; [|exact R]. intros p. apply in_region_shrink. lia.
  - mstep H. exact Hreg.
Qed.

Lemma populate_positions (mode : Mode) (sz : Z) (het rot : float)
  (ts : Shape) (tc : Color) (d : Distract) (ti : Z) :
  forall (positions : list point) (i : Z) (t t' : tape) (items : list Item.t),
    populate mode sz het rot ts tc d ti i positions t = Ok (items, t') ->
    map Item_pos items = positions.
Proof.
  induction positions as [|[x y] rest IH]; intros i t t' items H;
    cbn [populate] in H.
  - mstep H. reflexivity.
  - mstep H. mstep H. mstep H. apply IH in Ha0.
    cbn [map]. f_equal; [|exact Ha0].
    destruct (i =? ti).
    + unfold target_item in Ha. mstep Ha. mstep Ha. mstep Ha. reflexivity.
    + unfold distractor_item in Ha. mstep Ha. destruct a1 as [s c].
      mstep Ha. mstep Ha. reflexivity.
Qed.

(** What a round keeps of its inputs: the base items sit on the given
    positions, in order; the rule carries the mode and its text. *)
Lemma build_round_layout (mode : Mode) (level : Z) (het rot crowd : float)
  (positions : list point) (ts : Shape) (tc : Color) (d : Distract)
  (t t' : tape) (items : list Item.t) (rule : Rule) :
  build_round mode level het rot crowd positions ts tc d t
    = Ok ((items, rule), t') ->
  1 <= level -> len positions = set_size level ->
  map Item_pos (base_items level items) = positions /\
  rule_mode rule = mode /\
  describe mode ts tc d = Ok (rule_desc rule).
Proof.
  unfold build_round. intros H Hl Hpos.
  pose proof (set_size_bounds level Hl) as Hs.
  mstep H. mstep H. mstep H. mstep H. mstep Ha2.
  apply ret_ok in H. destruct H as [E _]. inversion E; subst items rule; clear E.
  pose proof (populate_spec _ _ _ _ _ _ _ _ _ _ _ _ _ Ha0) as [Hlen _].
  apply populate_positions in Ha0.
  apply inject_crowd_spec in Ha1; [|unfold len in *; lia].
  destruct Ha1 as (extra & -> & _).
  split; [|split; [reflexivity | exact H0]].
  unfold base_items.
  replace (Z.to_nat (set_size level)) with (List.length a0)
    by (unfold len in Hpos; lia).
  rewrite firstn_app, Nat.sub_diag, firstn_all. cbn [firstn].
  rewrite app_nil_r. exact Ha0.
Qed.

(** A successful call of the body built a round on positions inside the
    padded region, or, in mixed mode, returned what [self] returned. *)
Lemma make_items_with_build (self : Mode -> Z -> M (list Item.t * Rule))
  (mode : Mode) (level : Z) (t t' : tape) (r : list Item.t * Rule) :
  make_items_with self mode level t = Ok (r, t') ->
  1 <= level ->
  (exists het rot crowd positions ts tc d t1,
      Forall (in_region (size level + 6)) positions /\
      len positions = set_size level /\
      rule_selected mode ts tc d /\
      build_round mode level het rot crowd positions ts tc d t1
        = Ok (r, t')) \/
  (mode = mixed /\
   exists m' t1, m' <> mixed /\ self m' level t1 = Ok (r, t')).
Proof.
  unfold make_items_with. intros H Hl.
  pose proof (set_size_bounds level Hl) as Hs.
  pose proof (size_bounds level Hl) as Hz.
  mstep H. mstep Ha. mstep H. mstep Ha0. mstep H. mstep Ha1. mstep H.
  assert (Hreg : Forall (in_region (size level + 6)) a2)
    by (eapply generate_positions_region; [| |exact Ha2]; lia).
  apply generate_positions_length in Ha2; [|lia].
  destruct mode.
  - left. mstep H. mstep H. destruct (flt a4 f0_5).
    + mstep H. mstep H.
      apply until_different_spec in Ha5. apply shape_eqb_false in Ha5.
      exists a, a0, a1, a2, a3, a6, (Fixed a5 a6). eexists.
      split; [exact Hreg|]. split; [exact Ha2|]. split; [|exact H].
      exists a5, a6. split; [reflexivity|]. left. auto.
    + mstep H. mstep H.
      apply until_different_spec in Ha6. apply color_eqb_false in Ha6.
      exists a, a0, a1, a2, a3, a5, (Fixed a3 a6). eexists.
      split; [exact Hreg|]. split; [exact Ha2|]. split; [|exact H].
      exists a3, a6. split; [reflexivity|]. right. auto.
  - left. mstep H. mstep H. mstep H. mstep H.
    apply choice_ok in Ha5, Ha6.
    apply filter_In in Ha5, Ha6.
    destruct Ha5 as [_ Hc]. destruct Ha6 as [_ Hs'].
    apply negb_true_iff in Hc, Hs'.
    apply color_eqb_false in Hc. apply shape_eqb_false in Hs'.
    exists a, a0, a1, a2, a3, a4, (Pairs [(a3, a5); (a6, a4)]). eexists.
    split; [exact Hreg|]. split; [exact Ha2|]. split; [|exact H].
    exists a5, a6. auto.
  - mstep H. destruct (flt a3 f0_65).
    + right. split; [reflexivity|]. exists classic. eexists.
      split; [discriminate | exact H].
    + mstep H. destruct (flt a4 f0_95).
      * right. split; [reflexivity|]. exists conjunction. eexists.
        split; [discriminate | exact H].
      * left. mstep H. mstep H.
        exists a, a0, a1, a2, a5, a6, (Fixed a5 a6). eexists.
        split; [exact Hreg|]. split; [exact Ha2|].
        split; [reflexivity | exact H].
Qed.

Lemma make_items_build (mode : Mode) (level : Z) (t t' : tape)
  (r : list Item.t * Rule) :
  make_items mode level t = Ok (r, t') ->
  1 <= level ->
  exists mode' het rot crowd positions ts tc d t1,
    Forall (in_region (size level + 6)) positions /\
    len positions = set_size level /\
    rule_selected mode' ts tc d /\
    build_round mode' level het rot crowd positions ts tc d t1 = Ok (r, t').
Proof.
  intros H Hl. unfold make_items in H.
  apply make_items_with_build in H; [|exact Hl].
  destruct H as [(het & rot & crowd & ps & ts & tc & d & t1 & P)
                |(-> & m' & t1 & Hm' & H)].
  - exists mode, het, rot, crowd, ps, ts, tc, d, t1. exact P.
  - apply make_items_with_build in H; [|exact Hl].
    destruct H as [(het & rot & crowd & ps & ts & tc & d & t2 & P)
                  |(-> & _)]; [|congruence].
    exists m', het, rot, crowd, ps, ts, tc, d, t2. exact P.
Qed.

Lemma oddball_scale_bound (sz v : Z) :
  12 <= sz <= 26 -> int_scale sz f1_4 = Ok v -> v <= sz + 10.
Proof.
  intros Hs Hv.
  pose proof (range_forallb
                (fun z => if z <? 12 then true
                          else match int_scale z f1_4 with
                               | Ok w => w <=? z + 10
                               | Raise _ => true
                               end) 27) as T.
  specialize (T eq_refl sz). cbv beta in T.
  assert (Hlt : 0 <= sz < 27) by lia. specialize (T Hlt).
  replace (sz <? 12) with false in T by (symmetry; apply Z.ltb_ge; lia).
  rewrite Hv in T. apply Z.leb_le. exact T.
Qed.

(** The size of every base item of a round: the profile's size, or up
    to 10 more for the target. *)
Lemma base_item_size (mode : Mode) (level : Z) (ts : Shape) (tc : Color)
  (d : Distract) (crowd : float) (items : list Item.t) (rule : Rule)
  (it : Item.t) :
  1 <= level ->
  round_shape mode level ts tc d crowd items rule ->
  In it (base_items level items) ->
  size level <= Item.size it <= size level + 10.
Proof.
  intros Hl Hshape Hin.
  pose proof (size_bounds level Hl) as Hz.
  destruct (round_parts _ _ _ _ _ _ _ _ Hshape)
    as (tgt & _ & (Ht & _ & _ & Hsz) & Htargets & _ & Happ & Hdis & _).
  destruct (Item.is_target it) eqn:E.
  - assert (it = tgt).
    { assert (Hf : In it (targets items)).
      { unfold targets. apply filter_In. split; [|exact E].
        rewrite Happ. apply in_or_app. left. exact Hin. }
      rewrite Htargets in Hf. destruct Hf as [F|[]]. congruence. }
    subst it. unfold target_size in Hsz.
    destruct (mode_eqb mode mixed).
    + pose proof (oddball_scale_larger _ _ Hz Hsz).
      pose proof (oddball_scale_bound _ _ Hz Hsz). lia.
    + lia.
  - destruct (Hdis it Hin E) as (_ & Hs & _). lia.
Qed.

(** X6: in every round [make_items] returns, the base items sit on the
    generated positions, inside the region padded by [size + 6]; so each
    of them, the enlarged oddball target included, is drawn wholly
    inside the window and below the 64-pixel band of the HUD. *)
Theorem base_items_on_screen (mode : Mode) (level : Z) (t t' : tape)
  (items : list Item.t) (rule : Rule) :
  1 <= level ->
  make_items mode level t = Ok ((items, rule), t') ->
  forall it, In it (base_items level items) ->
    in_region (size level + 6) (Item_pos it) /\
    0 < Item.x it - Item.size it /\ Item.x it + Item.size it < WIDTH /\
    64 < Item.y it - Item.size it /\ Item.y it + Item.size it < HEIGHT.
Proof.
  intros Hl H it Hin.
  pose proof (size_bounds level Hl) as Hz.
  destruct (make_items_inv _ _ _ _ _ _ H Hl)
    as (mode1 & ts1 & tc1 & d1 & crowd1 & _ & _ & Hshape & _).
  pose proof (base_item_size _ _ _ _ _ _ _ _ _ Hl Hshape Hin) as Hsz.
  destruct (make_items_build _ _ _ _ _ H Hl)
    as (mode' & het & rot & crowd & ps & ts & tc & d & t1 & Hreg & Hlen
        & _ & Hb).
  destruct (build_round_layout _ _ _ _ _ _ _ _ _ _ _ _ _ Hb Hl Hlen)
    as (Hpos & _).
  assert (R : in_region (size level + 6) (Item_pos it)).
  { rewrite Forall_forall in Hreg. apply Hreg. rewrite <- Hpos.
    apply in_map. exact Hin. }
  split; [exact R|].
  unfold in_region, Item_pos, MARGIN, WIDTH, HEIGHT in *. cbn [fst snd] in R.
  lia.
Qed.

Lemma base_items_on_screen_witness :
  exists items rule t',
    make_items mixed 1 tape_mixed_oddball = Ok ((items, rule), t') /\
    forall it, In it (base_items 1 items) ->
      in_region (size 1 + 6) (Item_pos it) /\
      0 < Item.x it - Item.size it /\ Item.x it + Item.size it < WIDTH /\
      64 < Item.y it - Item.size it /\ Item.y it + Item.size it < HEIGHT.
Proof.
  eexists _, _, _.
  split; [vm_compute; reflexivity|].
  eapply (base_items_on_screen mixed 1 tape_mixed_oddball).
  - lia.
  - vm_compute. reflexivity.
Defined.

(** X7: the rule text of a round names the features of its target. A
    classic round says either "Find the only S among Ds", with [S] the
    shape of the target and [D] another shape, or "Find the only C
    item", with [C] the color of the target; a conjunction round names
    the color and the shape of the target; the oddball round has its
    fixed text. *)
Theorem rule_names_target (mode : Mode) (level : Z) (t t' : tape)
  (items : list Item.t) (rule : Rule) :
  1 <= level ->
  make_items mode level t = Ok ((items, rule), t') ->
  exists tgt,
    targets items = [tgt] /\
    match rule_mode rule with
    | classic =>
        (exists ds, ds <> Item.shape tgt /\
           rule_desc rule =
             ("Find the only " ++ shape_str (Item.shape tgt) ++ " among "
                ++ shape_str ds ++ "s")%string) \/
        rule_desc rule =
          ("Find the only " ++ color_str (Item.color_name tgt)
             ++ " item")%string
    | conjunction =>
        rule_desc rule =
          ("Find the only " ++ color_str (Item.color_name tgt) ++ " "
             ++ shape_str (Item.shape tgt)
             ++ " (others share its color or shape)")%string
    | mixed =>
        rule_desc rule = "Find the unique oddball (size/feature)"%string
    end.
Proof.
  intros Hl H.
  destruct (make_items_build _ _ _ _ _ H Hl)
    as (mode' & het & rot & crowd & ps & ts & tc & d & t1 & _ & Hlen
        & Hrule & Hb).
  destruct (build_round_layout _ _ _ _ _ _ _ _ _ _ _ _ _ Hb Hl Hlen)
    as (_ & Hmode & Hdesc).
  apply build_round_spec in Hb; [|exact Hl|exact Hlen].
  destruct (round_parts _ _ _ _ _ _ _ _ Hb)
    as (tgt & _ & (_ & Hts & Htc & _) & Htargets & _).
  exists tgt. split; [exact Htargets|].
  rewrite Hmode, Hts, Htc. clear Hb.
  destruct mode'; cbn [rule_selected] in Hrule; cbn [describe] in Hdesc.
  - destruct Hrule as (ds & dc & -> & Hone).
    unfold shape_eqb in Hdesc.
    destruct (Shape_eq_dec ds ts) as [E|N].
    + right. congruence.
    + left. exists ds. split; [exact N | congruence].
  - congruence.
  - congruence.
Qed.

Lemma rule_names_target_witness :
  exists items rule t',
    make_items classic 1 tape_classic = Ok ((items, rule), t') /\
    exists tgt,
      targets items = [tgt] /\
      match rule_mode rule with
      | classic =>
          (exists ds, ds <> Item.shape tgt /\
             rule_desc rule =
               ("Find the only " ++ shape_str (Item.shape tgt) ++ " among "
                  ++ shape_str ds ++ "s")%string) \/
          rule_desc rule =
            ("Find the only " ++ color_str (Item.color_name tgt)
               ++ " item")%string
      | conjunction =>
          rule_desc rule =
            ("Find the only " ++ color_str (Item.color_name tgt) ++ " "
               ++ shape_str (Item.shape tgt)
               ++ " (others share its color or shape)")%string
      | mixed =>
          rule_desc rule = "Find the unique oddball (size/feature)"%string
      end.
Proof.
  eexists _, _, _.
  split; [vm_compute; reflexivity|].
  eapply (rule_names_target classic 1 tape_classic).
  - lia.
  - vm_compute. reflexivity.
Defined.

Lemma random_run (k : Z) (t : tape) :
  random (k :: t)
  = Ok (binary_normalize prec emax (k mod 2 ^ 53) (-53) false, t).
Proof. reflexivity. Qed.

(** X8: a mixed call that delegates returns exactly what the simpler
    mode returns on the draws that follow the dispatch: the layout the
    mixed call generated first is dropped, and the delegated call draws
    its own. *)
Theorem mixed_delegates (level : Z) (t : tape) (positions : list point)
  (k1 : Z) (rest : tape) :
  generate_positions (set_size level) (size level + 6) t
    = Ok (positions, k1 :: rest) ->
  (k1 mod 2 ^ 53 < T65 ->
   make_items mixed level t = make_items classic level rest) /\
  (T65 <= k1 mod 2 ^ 53 ->
   forall k2 rest', rest = k2 :: rest' -> k2 mod 2 ^ 53 < T95 ->
   make_items mixed level t = make_items conjunction level rest').
Proof.
  intros Hg.
  assert (L65 : 2 ^ 52 <= T65) by (vm_compute; discriminate).
  assert (L95 : 2 ^ 52 <= T95) by (vm_compute; discriminate).
  assert (B1 : 0 <= k1 mod 2 ^ 53 < 2 ^ 53) by (apply Z.mod_pos_bound; lia).
  assert (Hprofile :
    forall m rest0,
      (exists e, heterogeneity level = Raise e \/
                 (exists h, heterogeneity level = Ok h /\
                            (rotation level = Raise e \/
                             exists r, rotation level = Ok r /\
                                       crowding level = Raise e))) ->
      make_items mixed level t = make_items m level rest0).
  { intros m rest0 (e & [Hh|(h & Hh & [Hr|(r & Hr & Hc)])]);
      unfold make_items, make_items_with, bind, lift;
      rewrite ?Hh, ?Hr, ?Hc; destruct m; reflexivity. }
  destruct (heterogeneity level) as [h|e] eqn:Hh.
  2:{ split; intros; apply Hprofile; exists e; left; reflexivity. }
  destruct (rotation level) as [r|e] eqn:Hr.
  2:{ split; intros; apply Hprofile; exists e; right; exists h;
      (split; [reflexivity | left; reflexivity]). }
  destruct (crowding level) as [c|e] eqn:Hc.
  2:{ split; intros; apply Hprofile; exists e; right; exists h;
      (split; [reflexivity | right; exists r; split; reflexivity]). }
  clear Hprofile.
  assert (Hstart : forall K,
    make_items_with K mixed level t =
    (u <- random ;;
     if flt u f0_65 then K classic level
     else v <- random ;;
          if flt v f0_95 then K conjunction level
          else target_shape <- choice SHAPES ;;
               target_color <- choice COLOR_NAMES ;;
               build_round mixed level h r c positions target_shape
                 target_color (Fixed target_shape target_color))
      (k1 :: rest)).
  { intros K. unfold make_items_with. unfold bind at 1, lift at 1.
    rewrite Hh. unfold bind at 1, lift at 1. rewrite Hr.
    unfold bind at 1, lift at 1. rewrite Hc.
    unfold bind at 1. rewrite Hg. reflexivity. }
  split.
  - intros H1. unfold make_items at 1. rewrite Hstart.
    unfold bind at 1. rewrite random_run.
    change f0_65 with (S754_finite false 5854679515581645 (-53)).
    rewrite (random_lt_literal _ 5854679515581645 B1 L65).
    change (Zpos 5854679515581645) with T65.
    replace (k1 mod 2 ^ 53 <? T65) with true
      by (symmetry; apply Z.ltb_lt; exact H1).
    reflexivity.
  - intros H1 k2 rest' -> H2.
    assert (B2 : 0 <= k2 mod 2 ^ 53 < 2 ^ 53) by (apply Z.mod_pos_bound; lia).
    unfold make_items at 1. rewrite Hstart.
    unfold bind at 1. rewrite random_run.
    change f0_65 with (S754_finite false 5854679515581645 (-53)).
    rewrite (random_lt_literal _ 5854679515581645 B1 L65).
    change (Zpos 5854679515581645) with T65.
    replace (k1 mod 2 ^ 53 <? T65) with false
      by (symmetry; apply Z.ltb_ge; exact H1).
    unfold bind at 1. rewrite random_run.
    change f0_95 with (S754_finite false 8556839292003942 (-53)).
    rewrite (random_lt_literal _ 8556839292003942 B2 L95).
    change (Zpos 8556839292003942) with T95.
    replace (k2 mod 2 ^ 53 <? T95) with true
      by (symmetry; apply Z.ltb_lt; exact H2).
    reflexivity.
Qed.

Lemma mixed_delegates_witness :
  make_items mixed 1 tape_mixed_delegating
  = make_items conjunction 1 tape_conjunction.
Proof.
  refine (proj2 (mixed_delegates 1 tape_mixed_delegating
                   [(92, 132); (192, 132); (292, 132); (392, 132);
                    (492, 132); (592, 132); (692, 132); (792, 132);
                    (92, 232); (192, 232)]
                   hi (half :: tape_conjunction) _) _
                half tape_conjunction eq_refl _).
  - vm_compute. reflexivity.
  - vm_compute. discriminate.
  - vm_compute. reflexivity.
Defined.

(* ================================================================== *)
(** ** The stable sort *)

Lemma filter_all_false {A} (f : A -> bool) (l : list A) :
  (forall a, In a l -> f a = false) -> filter f l = [].
Proof.
  induction l as [|a l IH]; intros H; cbn [filter]; [reflexivity|].
  rewrite (H a) by (left; reflexivity).
  apply IH. intros b Hb. apply H. right. exact Hb.
Qed.

Lemma filter_all_true {A} (f : A -> bool) (l : list A) :
  (forall a, In a l -> f a = true) -> filter f l = l.
Proof.
  induction l as [|a l IH]; intros H; cbn [filter]; [reflexivity|].
  rewrite (H a) by (left; reflexivity).
  f_equal. apply IH. intros b Hb. apply H. right. exact Hb.
Qed.

Section SortBy.
Variable A : Type.
Variable key : A -> Z.

Lemma insert_by_perm (a : A) (l : list A) :
  Permutation (insert_by key a l) (a :: l).
Proof.
  induction l as [|b l IH]; cbn [insert_by]; [apply Permutation_refl|].
  destruct (key a <=? key b); [apply Permutation_refl|].
  eapply Permutation_trans; [apply perm_skip; exact IH | apply perm_swap].
Qed.

Lemma sort_by_perm (l : list A) : Permutation (sort_by key l) l.
Proof.
  induction l as [|a l IH]; cbn; [constructor|].
  eapply Permutation_trans; [apply insert_by_perm|].
  apply perm_skip. exact IH.
Qed.

Lemma insert_by_sorted (a : A) (l : list A) :
  StronglySorted (fun x y => key x <= key y) l ->
  StronglySorted (fun x y => key x <= key y) (insert_by key a l).
Proof.
  induction 1 as [|b l Hl IH Hb]; cbn [insert_by].
  - repeat constructor.
  - destruct (key a <=? key b) eqn:E.
    + apply Z.leb_le in E. constructor; [constructor; assumption|].
      constructor; [exact E|].
      eapply Forall_impl; [|exact Hb]. cbv beta. intros c Hc. lia.
    + apply Z.leb_gt in E. constructor; [exact IH|].
      apply (Permutation_Forall (Permutation_sym (insert_by_perm a l))).
      constructor; [lia | exact Hb].
Qed.

Lemma sort_by_sorted (l : list A) :
  StronglySorted (fun x y => key x <= key y) (sort_by key l).
Proof.
  induction l as [|a l IH]; cbn; [constructor|].
  apply insert_by_sorted. exact IH.
Qed.

(** An element that goes before the whole of a list. *)
Lemma insert_by_front (a : A) (l : list A) :
  Forall (fun b => key a <= key b) l -> insert_by key a l = a :: l.
Proof.
  intros H. destruct l as [|b l]; [reflexivity|]. cbn [insert_by].
  inversion H; subst.
  replace (key a <=? key b) with true
    by (symmetry; apply Z.leb_le; assumption).
  reflexivity.
Qed.

(** An element that goes after a prefix of smaller keys. *)
Lemma insert_by_after (a : A) (l1 l2 : list A) :
  Forall (fun b => key b < key a) l1 ->
  insert_by key a (l1 ++ l2) = l1 ++ insert_by key a l2.
Proof.
  induction 1 as [|b l1 Hb Hl IH]; [reflexivity|].
  cbn [app insert_by].
  replace (key a <=? key b) with false by (symmetry; apply Z.leb_gt; lia).
  f_equal. exact IH.
Qed.

(** Sorting a sorted list with one element appended: the new element
    goes after every element whose key is not above its own. *)
Lemma sort_by_snoc_sorted (l : list A) (e : A) :
  StronglySorted (fun x y => key x <= key y) l ->
  sort_by key (l ++ [e])
  = filter (fun a => key a <=? key e) l
    ++ e :: filter (fun a => key e <? key a) l.
Proof.
  unfold sort_by. rewrite fold_right_app. cbn [fold_right insert_by].
  induction 1 as [|a l Hl IH Ha]; [reflexivity|].
  cbn [fold_right filter]. rewrite IH. rewrite Forall_forall in Ha.
  destruct (key a <=? key e) eqn:E.
  - apply Z.leb_le in E.
    replace (key e <? key a) with false by (symmetry; apply Z.ltb_ge; lia).
    cbn [app]. apply insert_by_front.
    apply Forall_app. split.
    + apply Forall_forall. intros b Hb. apply filter_In in Hb.
      apply Ha. tauto.
    + constructor; [exact E|].
      apply Forall_forall. intros b Hb. apply filter_In in Hb.
      apply Ha. tauto.
  - apply Z.leb_gt in E.
    replace (key e <? key a) with true by (symmetry; apply Z.ltb_lt; lia).
    rewrite (filter_all_false (fun b => key b <=? key e) l).
    2:{ intros b Hb. apply Z.leb_gt. specialize (Ha b Hb). cbv beta in Ha. lia. }
    rewrite (filter_all_true (fun b => key e <? key b) l).
    2:{ intros b Hb. apply Z.ltb_lt. specialize (Ha b Hb). cbv beta in Ha. lia. }
    cbn [app insert_by].
    replace (key a <=? key e) with false by (symmetry; apply Z.leb_gt; lia).
    f_equal. apply insert_by_front.
    apply Forall_forall. exact Ha.
Qed.

Lemma sorted_app_order (l1 l2 : list A) :
  StronglySorted (fun x y => key x <= key y) (l1 ++ l2) ->
  forall a b, In a l1 -> In b l2 -> key a <= key b.
Proof.
  induction l1 as [|c l1 IH]; intros H a b Ha Hb; [destruct Ha|].
  cbn [app] in H. inversion H as [|? ? Hs Hc]; subst.
  destruct Ha as [->|Ha].
  - rewrite Forall_forall in Hc. apply Hc. apply in_or_app. right. exact Hb.
  - apply (IH Hs a b Ha Hb).
Qed.

Lemma sorted_firstn (n : nat) (l : list A) :
  StronglySorted (fun x y => key x <= key y) l ->
  StronglySorted (fun x y => key x <= key y) (firstn n l).
Proof.
  intros H. revert n. induction H as [|a l Hl IH Ha]; intros n.
  - rewrite firstn_nil. constructor.
  - destruct n as [|n]; cbn [firstn]; [constructor|].
    constructor; [apply IH|].
    rewrite Forall_forall in *. intros b Hb. apply Ha.
    rewrite <- (firstn_skipn n l). apply in_or_app. left. exact Hb.
Qed.
End SortBy.

Arguments insert_by_perm {A}.
Arguments sort_by_perm {A}.
Arguments sort_by_sorted {A}.
Arguments insert_by_front {A}.
Arguments insert_by_after {A}.
Arguments sort_by_snoc_sorted {A}.
Arguments sorted_app_order {A}.
Arguments sorted_firstn {A}.

(* ================================================================== *)
(** ** High scores *)

Lemma by_score_key (l : list Highscores.Entry) :
  StronglySorted (fun x y => - Highscores.score x <= - Highscores.score y) l
  <-> StronglySorted by_score l.
Proof.
  split; induction 1 as [|a l Hl IH Ha]; constructor; try exact IH;
    (eapply Forall_impl; [|exact Ha]); unfold by_score; cbv beta;
    intros; lia.
Qed.

Lemma get_add_same (d : Highscores.data) (mode : Mode) (sc now : Z)
  (det : Highscores.Details) :
  Highscores.get (Highscores.add d mode sc now det) mode
  = firstn 10 (sort_by (fun e => - Highscores.score e)
                 (Highscores.get d mode ++ [Highscores.mkEntry sc now det])).
Proof.
  unfold Highscores.add, Highscores.get at 1, mode_eqb.
  destruct (Mode_eq_dec mode mode) as [_|N]; [reflexivity | congruence].
Qed.

(** X9: after [add] the board of the mode holds one entry more, capped
    at ten; it is ordered from the best score to the worst; it is made of
    the best of the old entries and the new one, every entry it leaves
    out scoring no more than any it keeps; the boards of the other modes
    are unchanged. A missing mode counts as an empty board. *)
Theorem highscores_add_board (d : Highscores.data) (mode : Mode)
  (sc now : Z) (det : Highscores.Details) :
  let old := Highscores.get d mode in
  let e := Highscores.mkEntry sc now det in
  let board := Highscores.get (Highscores.add d mode sc now det) mode in
  len board = Z.min (len old + 1) 10 /\
  StronglySorted by_score board /\
  (exists dropped,
      Permutation (old ++ [e]) (board ++ dropped) /\
      forall kept out, In kept board -> In out dropped ->
        Highscores.score out <= Highscores.score kept) /\
  forall m, m <> mode -> Highscores.add d mode sc now det m = d m.
Proof.
  intros old e board. unfold board. rewrite get_add_same.
  fold old. fold e.
  set (key := fun x => - Highscores.score x).
  pose proof (sort_by_perm key (old ++ [e])) as P.
  pose proof (sort_by_sorted key (old ++ [e])) as S.
  split; [|split; [|split]].
  - unfold len. rewrite length_firstn.
    rewrite (Permutation_length P), length_app. cbn [List.length]. lia.
  - apply by_score_key. apply sorted_firstn. exact S.
  - exists (skipn 10 (sort_by key (old ++ [e]))). split.
    + rewrite firstn_skipn. apply Permutation_sym. exact P.
    + intros kept out Hk Ho.
      rewrite <- (firstn_skipn 10 (sort_by key (old ++ [e]))) in S.
      pose proof (sorted_app_order key _ _ S kept out Hk Ho) as L.
      unfold key in L. lia.
  - intros m Hm. unfold Highscores.add, mode_eqb.
    destruct (Mode_eq_dec m mode); [contradiction | reflexivity].
Qed.

(** X10: on a board that is ordered, as [add] leaves it, the new entry
    goes after every entry that scores at least as much, ahead of those
    that score less, and the first ten are kept. *)
Theorem highscores_add_position (d : Highscores.data) (mode : Mode)
  (sc now : Z) (det : Highscores.Details) :
  StronglySorted by_score (Highscores.get d mode) ->
  Highscores.get (Highscores.add d mode sc now det) mode
  = firstn 10
      (filter (fun x => sc <=? Highscores.score x) (Highscores.get d mode)
       ++ Highscores.mkEntry sc now det
       :: filter (fun x => Highscores.score x <? sc) (Highscores.get d mode)).
Proof.
  intros S. rewrite get_add_same. apply by_score_key in S.
  rewrite (sort_by_snoc_sorted _ _ _ S). cbn [Highscores.score].
  f_equal. f_equal.
  - apply filter_ext. intros x.
    destruct (sc <=? Highscores.score x) eqn:E.
    + apply Z.leb_le. apply Z.leb_le in E. lia.
    + apply Z.leb_gt. apply Z.leb_gt in E. lia.
  - f_equal. apply filter_ext. intros x.
    destruct (Highscores.score x <? sc) eqn:E.
    + apply Z.ltb_lt. apply Z.ltb_lt in E. lia.
    + apply Z.ltb_ge. apply Z.ltb_ge in E. lia.
Qed.

Lemma board10_sorted : StronglySorted by_score board10.
Proof.
  unfold board10. cbn.
  repeat (constructor; [|repeat constructor; unfold by_score; cbn; lia]).
  constructor.
Qed.

Lemma highscores_add_position_witness :
  Highscores.get
    (Highscores.add (fun _ => Some board10) classic 500 7
       (Highscores.mkDetails 3 1 2)) classic
  = firstn 10
      (filter (fun x => 500 <=? Highscores.score x)
         (Highscores.get (fun _ => Some board10) classic)
       ++ Highscores.mkEntry 500 7 (Highscores.mkDetails 3 1 2)
       :: filter (fun x => Highscores.score x <? 500)
            (Highscores.get (fun _ => Some board10) classic)).
Proof.
  apply (highscores_add_position (fun _ => Some board10) classic 500 7).
  exact board10_sorted.
Defined.

(** X11: on a full ordered board a score that does not beat the tenth
    entry is not recorded, a tie included: the board stays as it is. *)
Theorem highscores_add_rejects (d : Highscores.data) (mode : Mode)
  (sc now : Z) (det : Highscores.Details) :
  StronglySorted by_score (Highscores.get d mode) ->
  len (Highscores.get d mode) = 10 ->
  (forall x, In x (Highscores.get d mode) -> sc <= Highscores.score x) ->
  Highscores.get (Highscores.add d mode sc now det) mode
  = Highscores.get d mode.
Proof.
  intros S L All. rewrite get_add_same. apply by_score_key in S.
  rewrite (sort_by_snoc_sorted _ _ _ S). cbn [Highscores.score].
  rewrite filter_all_true.
  2:{ intros x Hx. apply Z.leb_le. specialize (All x Hx). lia. }
  replace 10%nat with (List.length (Highscores.get d mode) + 0)%nat
    by (unfold len in L; lia).
  rewrite firstn_app_2. cbn [firstn]. apply app_nil_r.
Qed.

Lemma highscores_add_rejects_witness :
  Highscores.get
    (Highscores.add (fun _ => Some board10) mixed 100 7
       (Highscores.mkDetails 3 1 2)) mixed
  = Highscores.get (fun _ => Some board10) mixed.
Proof.
  apply (highscores_add_rejects (fun _ => Some board10) mixed 100 7).
  - exact board10_sorted.
  - reflexivity.
  - intros x Hx. cbn in Hx.
    repeat (destruct Hx as [<-|Hx]; [cbn; lia|]). destruct Hx.
Defined.

(* ================================================================== *)
(** ** The game: clicks and rounds *)

Lemma find_app {A} (f : A -> bool) (l1 l2 : list A) :
  find f (l1 ++ l2)
  = match find f l1 with
    | Some a => Some a
    | None => find f l2
    end.
Proof.
  induction l1 as [|a l1 IH]; [reflexivity|].
  cbn [app find]. destruct (f a); [reflexivity | exact IH].
Qed.

(** [sorted(items, key=is_target, reverse=True)]: the targets in their
    order, then the other items in theirs. *)
Lemma sorted_targets_first (l : list Item.t) :
  sorted_reverse_by (fun i => if Item.is_target i then 1 else 0) l
  = targets l ++ filter (fun i => negb (Item.is_target i)) l.
Proof.
  unfold sorted_reverse_by, sort_by, targets.
  induction l as [|a l IH]; [reflexivity|].
  cbn [fold_right filter]. rewrite IH.
  destruct (Item.is_target a) eqn:E; cbn [negb].
  - cbn [app]. apply insert_by_front. apply Forall_forall.
    intros b _. cbv beta. rewrite E. destruct (Item.is_target b); lia.
  - rewrite insert_by_after.
    + f_equal. apply insert_by_front. apply Forall_forall.
      intros b Hb. apply filter_In in Hb. destruct Hb as [_ Hb].
      cbv beta. rewrite E. destruct (Item.is_target b); lia.
    + apply Forall_forall. intros b Hb. apply filter_In in Hb.
      destruct Hb as [_ Hb]. cbv beta. rewrite E, Hb. lia.
Qed.

(** The item a click lands on, when a target lies under the pointer. *)
Lemma click_finds_target (l : list Item.t) (pos : point) (tgt : Item.t) :
  In tgt l -> Item.is_target tgt = true -> under pos tgt = true ->
  exists it,
    find (under pos)
      (sorted_reverse_by (fun i => if Item.is_target i then 1 else 0) l)
    = Some it /\ Item.is_target it = true /\ In it l.
Proof.
  intros Hin Ht Hu. rewrite sorted_targets_first, find_app.
  destruct (find (under pos) (targets l)) as [it|] eqn:F.
  - exists it. split; [reflexivity|].
    apply find_some in F. destruct F as [F _].
    unfold targets in F. apply filter_In in F. tauto.
  - exfalso.
    assert (Hf : In tgt (targets l))
      by (unfold targets; apply filter_In; tauto).
    pose proof (find_none _ _ F tgt Hf) as N. congruence.
Qed.

(** The item a click lands on, when no target lies under the pointer. *)
Lemma click_finds_other (l : list Item.t) (pos : point) :
  (forall it, In it l -> Item.is_target it = true -> under pos it = false) ->
  match find (under pos)
          (sorted_reverse_by (fun i => if Item.is_target i then 1 else 0) l)
  with
  | Some it => Item.is_target it = false /\ existsb (under pos) l = true
  | None => existsb (under pos) l = false
  end.
Proof.
  intros Hno. rewrite sorted_targets_first, find_app.
  destruct (find (under pos) (targets l)) as [it|] eqn:F.
  - exfalso. apply find_some in F. destruct F as [F U].
    unfold targets in F. apply filter_In in F. destruct F as [F T].
    rewrite (Hno it F T) in U. discriminate U.
  - destruct (find (under pos) (filter _ l)) as [it|] eqn:F2.
    + apply find_some in F2. destruct F2 as [F2 U].
      apply filter_In in F2. destruct F2 as [F2 T].
      split; [destruct (Item.is_target it); [discriminate T | reflexivity]|].
      apply existsb_exists. exists it. tauto.
    + destruct (existsb (under pos) l) eqn:E; [exfalso | reflexivity].
      apply existsb_exists in E. destruct E as (it & Hin & U).
      destruct (Item.is_target it) eqn:T.
      * rewrite (Hno it Hin T) in U. discriminate U.
      * assert (Hf : In it (filter (fun i => negb (Item.is_target i)) l)).
        { apply filter_In. rewrite T. tauto. }
        pose proof (find_none _ _ F2 it Hf) as N. congruence.
Qed.

(** A click with no target under the pointer: the penalties. *)
Lemma handle_click_no_target {Particle} (g : @Game.t Particle) (pos : point)
  (burst : list Particle) (t : tape) :
  (forall it, In it (Game.items g) -> Item.is_target it = true ->
              under pos it = false) ->
  Game.handle_click g pos burst t
  = Ok (Game.idle_penalty
          (if existsb (under pos) (Game.items g)
           then Game.set_time_left
                  (Game.set_misses (Game.set_combo g 0) (Game.misses g + 1))
                  (fsub (Game.time_left g) f1_2)
           else g), t).
Proof.
  intros Hno. unfold Game.handle_click. cbv zeta.
  change (fun it => collidepoint (Item_rect it) pos) with (under pos).
  pose proof (click_finds_other _ _ Hno) as F.
  destruct (find (under pos) _) as [it|].
  - destruct F as [T E]. rewrite T, E. reflexivity.
  - rewrite F. reflexivity.
Qed.

Lemma binary_round_aux_sign (s : bool) (m e : Z) (l : location) :
  match binary_round_aux prec emax s m e l with
  | S754_finite s' _ _ => s' = s
  | _ => True
  end.
Proof.
  unfold binary_round_aux.
  destruct (shr_fexp prec emax m e l) as [r1 e1].
  destruct (shr_fexp prec emax _ e1 loc_Exact) as [r2 e2].
  destruct (shr_m r2); [exact I | | exact I].
  destruct (e2 <=? emax - prec); [reflexivity | exact I].
Qed.

(** The time bonus of a hit is never negative. *)
Lemma time_bonus_nonneg (tl : float) (b : Z) :
  Game.time_bonus tl = Ok b -> 0 <= b.
Proof.
  unfold Game.time_bonus. intros H.
  destruct (float_gt_int tl 0) eqn:G; [|inversion H; lia].
  assert (E8 : of_int 8 = Ok (S754_finite false 4503599627370496 (-49)))
    by (vm_compute; reflexivity).
  rewrite E8 in H. cbn [rbind] in H.
  destruct tl as [s|s| |s m e].
  - discriminate G.
  - destruct s; [discriminate G|]. discriminate H.
  - discriminate G.
  - assert (s = false).
    { destruct s; [|reflexivity]. exfalso.
      unfold float_gt_int, int_lt_float, signed in G.
      destruct (0 <=? e) eqn:E.
      - apply Z.ltb_lt in G. apply Z.leb_le in E.
        pose proof (Z.pow_nonneg 2 e ltac:(lia)). nia.
      - apply Z.ltb_lt in G. lia. }
    subst s. unfold fmul, SFmul in H. cbn [xorb] in H.
    pose proof (binary_round_aux_sign false
                  (Zpos (m * 4503599627370496)) (e + -49) loc_Exact) as S.
    destruct (binary_round_aux prec emax false
                (Zpos (m * 4503599627370496)) (e + -49) loc_Exact)
      as [s'|s'| |s' m' e'].
    + inversion H. lia.
    + discriminate H.
    + discriminate H.
    + subst s'. exact (int_of_float_pos _ _ _ H).
Qed.

Lemma new_round_ok {Particle} (g g' : @Game.t Particle) (t t' : tape) :
  Game.new_round g t = Ok (g', t') ->
  exists its r,
    make_items (Game.mode g) (Game.level g) t = Ok ((its, r), t') /\
    g' = Game.set_particles
           (Game.set_time_left (Game.set_round g its r) (Game.round_time g))
           [].
Proof.
  unfold Game.new_round. intros H. mstep H. destruct a as [its r].
  apply ret_ok in H. destruct H as [-> ->].
  exists its, r. split; [exact Ha | reflexivity].
Qed.

(** A round that [make_items] returns holds exactly one target, and its
    size is positive. *)
Lemma make_items_target (mode : Mode) (level : Z) (t t' : tape)
  (items : list Item.t) (rule : Rule) :
  1 <= level ->
  make_items mode level t = Ok ((items, rule), t') ->
  exists tgt, targets items = [tgt] /\ 0 < Item.size tgt.
Proof.
  intros Hl H.
  pose proof (size_bounds level Hl) as Hz.
  destruct (make_items_inv _ _ _ _ _ _ H Hl)
    as (mode1 & ts1 & tc1 & d1 & crowd1 & _ & _ & Hshape & _).
  destruct (round_parts _ _ _ _ _ _ _ _ Hshape)
    as (tgt & Hin & _ & Htargets & _).
  pose proof (base_item_size _ _ _ _ _ _ _ _ _ Hl Hshape Hin) as Hsz.
  exists tgt. split; [exact Htargets | lia].
Qed.

(** X12: a click inside the rectangle of the target is a hit, whatever
    else lies under the pointer, because the targets are tried first. A
    hit adds one to the level and to the streak, leaves the misses, adds
    100 plus the time bonus plus 15 per step of the streak (150 at most)
    to the score, and starts the round of the next level from the draws:
    the timer is back at the round time and the particles, the burst of
    the hit included, are cleared. *)
Theorem handle_click_hit {Particle} (g g' : @Game.t Particle) (pos : point)
  (burst : list Particle) (t t' : tape) (tgt : Item.t) :
  In tgt (Game.items g) -> Item.is_target tgt = true ->
  under pos tgt = true ->
  Game.handle_click g pos burst t = Ok (g', t') ->
  exists bonus r,
    Game.time_bonus (Game.time_left g) = Ok bonus /\ 0 <= bonus /\
    make_items (Game.mode g) (Game.level g + 1) t
      = Ok ((Game.items g', r), t') /\
    Game.rule g' = Some r /\
    Game.level g' = Game.level g + 1 /\
    Game.combo g' = Game.combo g + 1 /\
    Game.misses g' = Game.misses g /\
    Game.score g'
      = Game.score g + 100 + bonus + Z.min 150 ((Game.combo g + 1) * 15) /\
    Game.time_left g' = Game.round_time g /\
    Game.round_time g' = Game.round_time g /\
    Game.particles g' = [] /\
    Game.state g' = Game.state g /\ Game.mode g' = Game.mode g.
Proof.
  intros Hin Ht Hu H. unfold Game.handle_click in H. cbv zeta in H.
  change (fun it => collidepoint (Item_rect it) pos) with (under pos) in H.
  destruct (click_finds_target _ _ _ Hin Ht Hu) as (it & Hf & Hit & _).
  rewrite Hf, Hit in H.
  mstep H. mstep Ha.
  cbn [Game.time_left Game.set_combo] in H0.
  apply new_round_ok in H. destruct H as (its & r & Hm & ->).
  exists a, r.
  split; [exact H0|]. split; [exact (time_bonus_nonneg _ _ H0)|].
  split; [exact Hm|].
  repeat split; try reflexivity.
  cbn [Game.score Game.set_particles Game.set_time_left Game.set_round
       Game.set_level Game.set_score Game.set_combo Game.combo].
  lia.
Qed.

Lemma handle_click_hit_witness :
  exists g' t',
    Game.handle_click
      (Game.set_level
         (Game.set_mode (Game.set_round (@Game.init unit) covered_target
                           (mkRule classic EmptyString)) classic) 0)
      (110, 95) [tt; tt] tape_classic = Ok (g', t') /\
    exists bonus r,
      Game.time_bonus f12_0 = Ok bonus /\ 0 <= bonus /\
      make_items classic 1 tape_classic = Ok ((Game.items g', r), t') /\
      Game.rule g' = Some r /\
      Game.level g' = 1 /\ Game.combo g' = 1 /\ Game.misses g' = 0 /\
      Game.score g' = 0 + 100 + bonus + Z.min 150 ((0 + 1) * 15) /\
      Game.time_left g' = f12_0 /\ Game.round_time g' = f12_0 /\
      Game.particles g' = [] /\
      Game.state g' = Game.menu /\ Game.mode g' = classic.
Proof.
  eexists _, _. split; [vm_compute; reflexivity|].
  eapply (handle_click_hit
            (Game.set_level
               (Game.set_mode (Game.set_round (@Game.init unit)
                                 covered_target
                                 (mkRule classic EmptyString)) classic) 0)
            _ (110, 95) [tt; tt] tape_classic _
            (Item.mk 100 100 20 circle red true f0_0)).
  - right. left. reflexivity.
  - reflexivity.
  - reflexivity.
  - vm_compute. reflexivity.
Defined.

(** X13: a click with no target under the pointer never raises and
    draws nothing; the level, the score, the items and the rule stay. If
    some item lies under the pointer the streak is reset, a miss is
    counted and 1.2 is taken from the timer; in either case 0.25 more is
    taken while the game is in play. *)
Theorem handle_click_miss {Particle} (g : @Game.t Particle) (pos : point)
  (burst : list Particle) (t : tape) :
  (forall it, In it (Game.items g) -> Item.is_target it = true ->
              under pos it = false) ->
  exists g',
    Game.handle_click g pos burst t = Ok (g', t) /\
    Game.level g' = Game.level g /\ Game.score g' = Game.score g /\
    Game.items g' = Game.items g /\ Game.rule g' = Game.rule g /\
    Game.mode g' = Game.mode g /\ Game.state g' = Game.state g /\
    Game.round_time g' = Game.round_time g /\
    Game.particles g' = Game.particles g /\
    let touched := existsb (under pos) (Game.items g) in
    Game.combo g' = (if touched then 0 else Game.combo g) /\
    Game.misses g'
      = (if touched then Game.misses g + 1 else Game.misses g) /\
    Game.time_left g'
      = let tl := if touched then fsub (Game.time_left g) f1_2
                  else Game.time_left g in
        match Game.state g with
        | Game.play => fsub tl f0_25
        | _ => tl
        end.
Proof.
  intros Hno. rewrite (handle_click_no_target g pos burst t Hno).
  eexists. split; [reflexivity|].
  unfold Game.idle_penalty.
  destruct (existsb (under pos) (Game.items g));
    cbn [Game.state Game.set_time_left Game.set_misses Game.set_combo];
    destruct (Game.state g) eqn:S; repeat split; try reflexivity;
    exact S.
Qed.

Lemma handle_click_miss_witness :
  exists g',
    Game.handle_click
      (Game.set_state
         (Game.set_round (@Game.init unit) covered_target
            (mkRule classic EmptyString)) Game.play)
      (500, 500) [tt] [] = Ok (g', []) /\
    Game.combo g' = 0 /\ Game.misses g' = 0 /\
    Game.time_left g' = fsub f12_0 f0_25.
Proof.
  destruct (handle_click_miss
              (Game.set_state
                 (Game.set_round (@Game.init unit) covered_target
                    (mkRule classic EmptyString)) Game.play)
              (500, 500) [tt] [])
    as (g' & H & _ & _ & _ & _ & _ & _ & _ & _ & Hc & Hm & Ht).
  - intros it Hin _. cbn in Hin.
    destruct Hin as [<-|[<-|[]]]; reflexivity.
  - exists g'. split; [exact H|]. split; [exact Hc|].
    split; [exact Hm | exact Ht].
Defined.

Lemma start_game_ok {Particle} (g g' : @Game.t Particle) (m : Mode)
  (t t' : tape) :
  Game.start_game g m t = Ok (g', t') ->
  exists hardcore zen its r,
    Game.toggle_value g 0 = Ok hardcore /\
    Game.toggle_value g 1 = Ok zen /\
    make_items m 1 t = Ok ((its, r), t') /\
    g' = (let rt := if zen then f9999_0
                    else if hardcore then f10_0 else f12_0 in
          Game.mk Game.play m 1 0 rt rt 0 0 its (Some r) []
                  (Game.buttons g) (Game.toggles g)).
Proof.
  unfold Game.start_game. cbv zeta. intros H.
  mstep H. mstep Ha. mstep H. mstep Ha0.
  apply new_round_ok in H. destruct H as (its & r & Hm & ->).
  exists a, a0, its, r.
  split; [exact H0|]. split; [exact H1|].
  split; [destruct a0; exact Hm|].
  destruct a0, a; reflexivity.
Qed.

(** X14: [start_game] puts the game in play in the chosen mode at level
    1 with the score, the streak and the misses at zero; the round time
    is 9999 when the zen toggle is on, whatever the hardcore toggle
    says, else 10 with the hardcore toggle and 12 without; the timer
    starts at the round time, no particle is left, and the board of the
    first round holds exactly one target. *)
Theorem start_game_state {Particle} (g g' : @Game.t Particle) (m : Mode)
  (t t' : tape) :
  Game.start_game g m t = Ok (g', t') ->
  exists hardcore zen r,
    Game.toggle_value g 0 = Ok hardcore /\
    Game.toggle_value g 1 = Ok zen /\
    make_items m 1 t = Ok ((Game.items g', r), t') /\
    Game.rule g' = Some r /\
    Game.state g' = Game.play /\ Game.mode g' = m /\ Game.level g' = 1 /\
    Game.score g' = 0 /\ Game.combo g' = 0 /\ Game.misses g' = 0 /\
    Game.round_time g'
      = (if zen then f9999_0 else if hardcore then f10_0 else f12_0) /\
    Game.time_left g' = Game.round_time g' /\
    Game.particles g' = [] /\
    Game.buttons g' = Game.buttons g /\ Game.toggles g' = Game.toggles g /\
    playable g'.
Proof.
  intros H.
  destruct (start_game_ok _ _ _ _ _ H)
    as (hardcore & zen & its & r & H0 & H1 & Hm & ->).
  exists hardcore, zen, r.
  split; [exact H0|]. split; [exact H1|]. split; [exact Hm|].
  destruct (make_items_target m 1 _ _ _ _ ltac:(lia) Hm) as (tgt & Ht & Hs).
  cbv zeta. repeat split; try reflexivity;
    cbn [Game.level Game.combo Game.misses Game.score]; try lia.
  exists tgt. split; [exact Ht | exact Hs].
Qed.

Lemma start_game_state_witness :
  exists g' t',
    Game.start_game (@menu_with unit true true) classic tape_classic
      = Ok (g', t') /\
    exists hardcore zen r,
      Game.toggle_value (@menu_with unit true true) 0 = Ok hardcore /\
      Game.toggle_value (@menu_with unit true true) 1 = Ok zen /\
      make_items classic 1 tape_classic = Ok ((Game.items g', r), t') /\
      Game.rule g' = Some r /\
      Game.state g' = Game.play /\ Game.mode g' = classic /\
      Game.level g' = 1 /\
      Game.score g' = 0 /\ Game.combo g' = 0 /\ Game.misses g' = 0 /\
      Game.round_time g'
        = (if zen then f9999_0 else if hardcore then f10_0 else f12_0) /\
      Game.time_left g' = Game.round_time g' /\
      Game.particles g' = [] /\
      Game.buttons g' = Game.buttons (@menu_with unit true true) /\
      Game.toggles g' = Game.toggles (@menu_with unit true true) /\
      playable g'.
Proof.
  eexists _, _. split; [vm_compute; reflexivity|].
  eapply (start_game_state (@menu_with unit true true) _ classic
            tape_classic).
  vm_compute. reflexivity.
Defined.

(** X15: the play state is kept by every click: from a state whose
    level is at least 1, whose counters are not negative and whose board
    holds exactly one target, a click that returns leaves such a state
    again; the level and the score never go down. So [make_items] is
    only ever called with a level of at least 1. *)
Theorem handle_click_playable {Particle} (g g' : @Game.t Particle)
  (pos : point) (burst : list Particle) (t t' : tape) :
  playable g ->
  Game.handle_click g pos burst t = Ok (g', t') ->
  playable g' /\ Game.level g <= Game.level g' /\
  Game.score g <= Game.score g'.
Proof.
  intros (Hl & Hc & Hm & Hs & tgt & Ht & Hz) H.
  unfold Game.handle_click in H. cbv zeta in H.
  destruct (find _ _) as [it|].
  - destruct (Item.is_target it).
    + mstep H. mstep Ha.
      cbn [Game.time_left Game.set_combo] in H0.
      pose proof (time_bonus_nonneg _ _ H0) as Hb.
      apply new_round_ok in H. destruct H as (its & r & Hr & ->).
      cbn [Game.mode Game.level Game.set_level Game.set_particles
           Game.set_score Game.set_combo] in Hr.
      destruct (make_items_target _ (Game.level g + 1) _ _ _ _
                  ltac:(lia) Hr)
        as (tgt' & Ht' & Hz').
      unfold playable.
      cbn [Game.level Game.combo Game.misses Game.score Game.items
           Game.set_particles Game.set_time_left Game.set_round
           Game.set_level Game.set_score Game.set_combo].
      repeat split; try lia.
      exists tgt'. split; [exact Ht' | exact Hz'].
    + apply ret_ok in H. destruct H as [-> _].
      unfold playable, Game.idle_penalty.
      cbn [Game.state Game.set_time_left Game.set_misses Game.set_combo].
      destruct (Game.state g);
        cbn [Game.level Game.combo Game.misses Game.score Game.items
             Game.set_time_left Game.set_misses Game.set_combo];
        (repeat split; try lia);
        (exists tgt; split; [exact Ht | exact Hz]).
  - apply ret_ok in H. destruct H as [-> _].
    unfold playable, Game.idle_penalty.
    destruct (Game.state g);
      cbn [Game.level Game.combo Game.misses Game.score Game.items
           Game.set_time_left];
      (repeat split; try lia);
      (exists tgt; split; [exact Ht | exact Hz]).
Qed.

Lemma handle_click_playable_witness :
  exists g' t',
    Game.handle_click
      (Game.set_state
         (Game.set_round (@Game.init unit) covered_target
            (mkRule classic EmptyString)) Game.play)
      (500, 500) [tt] [] = Ok (g', t') /\
    playable g' /\ 1 <= Game.level g' /\ 0 <= Game.score g'.
Proof.
  eexists _, _. split; [vm_compute; reflexivity|].
  eapply (handle_click_playable
            (Game.set_state
               (Game.set_round (@Game.init unit) covered_target
                  (mkRule classic EmptyString)) Game.play)
            _ (500, 500) [tt] []).
  - unfold playable. cbn. repeat split; try lia.
    eexists. split; [reflexivity | cbn; lia].
  - vm_compute. reflexivity.
Defined.

(* ================================================================== *)
(** ** The frame update and the zen timer *)

Lemma run_update_running {Particle}
  (upd : Particle -> float -> Particle * bool) (g : @Game.t Particle)
  (hs : Highscores.data) (dt : float) (now : Z) :
  Game.state g = Game.play ->
  float_lt_int (Game.time_left g) 9999 = true ->
  Game.time_left (fst (Game.run_update upd g hs dt now))
  = fsub (Game.time_left g) dt.
Proof.
  intros S L. unfold Game.run_update. rewrite S, L.
  destruct (float_le_int _ 0); reflexivity.
Qed.

Lemma run_update_frozen {Particle}
  (upd : Particle -> float -> Particle * bool) (g : @Game.t Particle)
  (hs : Highscores.data) (dt : float) (now : Z) :
  Game.state g = Game.play ->
  float_lt_int (Game.time_left g) 9999 = false ->
  float_le_int (Game.time_left g) 0 = false ->
  Game.run_update upd g hs dt now = (Game.update_particles upd g dt, hs).
Proof.
  intros S L Z. unfold Game.run_update. rewrite S, L.
  cbn [Game.time_left Game.update_particles Game.set_particles].
  rewrite Z. reflexivity.
Qed.

(** X16: a game started with the zen toggle on has its timer at 9999,
    and the frames leave it there: they change nothing and record no
    score. The penalty of a click that misses the target still applies,
    and it brings the timer under 9999: from then on every frame takes
    its duration from the timer, until the next hit resets it. *)
Theorem zen_timer_runs_after_miss {Particle}
  (upd : Particle -> float -> Particle * bool) (g g1 : @Game.t Particle)
  (m : Mode) (t t1 : tape) :
  Game.toggle_value g 1 = Ok true ->
  Game.start_game g m t = Ok (g1, t1) ->
  (forall hs dt now, Game.run_update upd g1 hs dt now = (g1, hs)) /\
  forall pos burst,
    (forall it, In it (Game.items g1) -> Item.is_target it = true ->
                under pos it = false) ->
    exists g2,
      Game.handle_click g1 pos burst t1 = Ok (g2, t1) /\
      float_lt_int (Game.time_left g2) 9999 = true /\
      forall hs dt now,
        Game.time_left (fst (Game.run_update upd g2 hs dt now))
        = fsub (Game.time_left g2) dt.
Proof.
  intros Hz H.
  destruct (start_game_ok _ _ _ _ _ H)
    as (hardcore & zen & its & r & _ & H1 & _ & Hg1).
  assert (zen = true) by congruence. subst zen. cbv zeta in Hg1.
  assert (S1 : Game.state g1 = Game.play) by (rewrite Hg1; reflexivity).
  assert (T1 : Game.time_left g1 = f9999_0) by (rewrite Hg1; reflexivity).
  split.
  - intros hs dt now.
    rewrite run_update_frozen;
      [|exact S1|rewrite T1; reflexivity|rewrite T1; reflexivity].
    rewrite Hg1. reflexivity.
  - intros pos burst Hno.
    rewrite (handle_click_no_target g1 pos burst t1 Hno).
    eexists. split; [reflexivity|].
    set (g2 := Game.idle_penalty _).
    assert (S2 : Game.state g2 = Game.play).
    { unfold g2, Game.idle_penalty.
      destruct (existsb (under pos) (Game.items g1));
        cbn [Game.state Game.set_time_left Game.set_misses Game.set_combo];
        rewrite S1; exact S1. }
    assert (L : float_lt_int (Game.time_left g2) 9999 = true).
    { unfold g2, Game.idle_penalty.
      destruct (existsb (under pos) (Game.items g1));
        cbn [Game.state Game.set_time_left Game.set_misses Game.set_combo];
        rewrite S1;
        cbn [Game.time_left Game.set_time_left Game.set_misses
             Game.set_combo];
        rewrite T1; vm_compute; reflexivity. }
    split; [exact L|].
    intros hs dt now. apply run_update_running; assumption.
Qed.

Lemma zen_timer_runs_after_miss_witness :
  exists g1 t1,
    Game.start_game (@menu_with unit false true) classic tape_classic
      = Ok (g1, t1) /\
    (forall hs dt now,
        Game.run_update (fun p _ => (p, false)) g1 hs dt now = (g1, hs)) /\
    forall pos burst,
      (forall it, In it (Game.items g1) -> Item.is_target it = true ->
                  under pos it = false) ->
      exists g2,
        Game.handle_click g1 pos burst t1 = Ok (g2, t1) /\
        float_lt_int (Game.time_left g2) 9999 = true /\
        forall hs dt now,
          Game.time_left
            (fst (Game.run_update (fun p _ => (p, false)) g2 hs dt now))
          = fsub (Game.time_left g2) dt.
Proof.
  eexists _, _. split; [vm_compute; reflexivity|].
  eapply (zen_timer_runs_after_miss (fun p _ => (p, false))
            (@menu_with unit false true) _ classic tape_classic).
  - reflexivity.
  - vm_compute. reflexivity.
Defined.

(* ================================================================== *)
(** ** The menu *)

Lemma apart_cross (l1 l2 : list Rect) :
  ForallOrdPairs apart (l1 ++ l2) ->
  forall r r', In r l1 -> In r' l2 -> apart r r'.
Proof.
  induction l1 as [|a l1 IH]; intros H r r' Hr Hr'; [destruct Hr|].
  cbn [app] in H. inversion H as [|? ? Ha Hl]; subst.
  destruct Hr as [->|Hr].
  - rewrite Forall_forall in Ha. apply Ha. apply in_or_app. right. exact Hr'.
  - exact (IH Hl r r' Hr Hr').
Qed.

Lemma apart_right (l1 l2 : list Rect) :
  ForallOrdPairs apart (l1 ++ l2) -> ForallOrdPairs apart l2.
Proof.
  induction l1 as [|a l1 IH]; intros H; [exact H|].
  cbn [app] in H. inversion H; subst. apply IH. assumption.
Qed.

Lemma apart_left (l1 l2 : list Rect) :
  ForallOrdPairs apart (l1 ++ l2) -> ForallOrdPairs apart l1.
Proof.
  induction l1 as [|a l1 IH]; intros H; [constructor|].
  cbn [app] in H. inversion H as [|? ? Ha Hl]; subst.
  constructor; [|apply IH; exact Hl].
  rewrite Forall_forall in *. intros r Hr. apply Ha.
  apply in_or_app. left. exact Hr.
Qed.

(** The rectangles [build_menu] lays out have no point in common. *)
Lemma controls_apart {Particle} (g : @Game.t Particle) :
  menu_laid_out g -> ForallOrdPairs apart (controls g).
Proof.
  intros [Hb Ht]. unfold controls. rewrite Hb, Ht.
  vm_compute Game.buttons. vm_compute Game.toggles.
  cbn [map app Button.rect Toggle.rect].
  repeat (constructor;
          [repeat (constructor;
                   [intros [x y] H; unfold collidepoint in *;
                    cbn [left top width height fst snd] in *;
                    rewrite !andb_true_iff, !Z.leb_le, !Z.ltb_lt in H;
                    apply not_true_is_false;
                    rewrite !andb_true_iff, !Z.leb_le, !Z.ltb_lt; lia|]);
           constructor|]).
  constructor.
Qed.

(** The buttons on a click that falls in none of them. *)
Lemma handle_buttons_outside {Particle} (bs : list Button.t) (pos : point)
  (g : @Game.t Particle) (t : tape) :
  (forall b, In b bs -> collidepoint (Button.rect b) pos = false) ->
  Game.handle_buttons bs (MOUSEBUTTONDOWN 1 pos) g t = Ok ((bs, g), t).
Proof.
  induction bs as [|b bs IH]; intros H; [reflexivity|].
  cbn [Game.handle_buttons Button.handle].
  rewrite (H b) by (left; reflexivity). cbn [Z.eqb Pos.eqb andb].
  unfold bind at 1. cbn [ret].
  unfold bind. rewrite IH by (intros b' Hb'; apply H; right; exact Hb').
  reflexivity.
Qed.

(** The buttons on a click, when their rectangles have no point in
    common: the callback of the button under the pointer runs and the
    buttons stay. *)
Lemma handle_buttons_click {Particle} (bs : list Button.t) (pos : point)
  (g : @Game.t Particle) (t : tape) :
  ForallOrdPairs apart (map Button.rect bs) ->
  Game.handle_buttons bs (MOUSEBUTTONDOWN 1 pos) g t
  = match find (fun b => collidepoint (Button.rect b) pos) bs with
    | Some b =>
        match Game.call (Button.on_click b) g t with
        | Ok (g', t') => Ok ((bs, g'), t')
        | Raise e => Raise e
        end
    | None => Ok ((bs, g), t)
    end.
Proof.
  induction bs as [|b bs IH]; intros H; [reflexivity|].
  cbn [map] in H. inversion H as [|? ? Hb Hbs]; subst.
  cbn [Game.handle_buttons Button.handle find].
  destruct (collidepoint (Button.rect b) pos) eqn:C;
    cbn [Z.eqb Pos.eqb andb].
  - unfold bind at 1.
    destruct (Game.call (Button.on_click b) g t) as [[g' t']|e];
      [|reflexivity].
    unfold bind. rewrite handle_buttons_outside; [reflexivity|].
    intros b' Hb'. rewrite Forall_forall in Hb.
    apply (Hb (Button.rect b') (in_map _ _ _ Hb') pos C).
  - unfold bind at 1. cbn [ret]. unfold bind. rewrite (IH Hbs).
    destruct (find _ bs) as [b'|]; [|reflexivity].
    destruct (Game.call (Button.on_click b') g t) as [[g' t']|e];
      reflexivity.
Qed.

Lemma toggles_outside (ts : list Toggle.t) (pos : point) :
  (forall tg, In tg ts -> collidepoint (Toggle.rect tg) pos = false) ->
  map (fun tg => Toggle.handle tg (MOUSEBUTTONDOWN 1 pos)) ts = ts.
Proof.
  induction ts as [|tg ts IH]; intros H; [reflexivity|].
  cbn [map Toggle.handle]. rewrite (H tg) by (left; reflexivity).
  cbn [Z.eqb Pos.eqb andb]. f_equal.
  apply IH. intros tg' Hin. apply H. right. exact Hin.
Qed.

Lemma toggles_click (ts : list Toggle.t) (pos : point) :
  ForallOrdPairs apart (map Toggle.rect ts) ->
  map (fun tg => Toggle.handle tg (MOUSEBUTTONDOWN 1 pos)) ts
  = flip_first pos ts.
Proof.
  induction ts as [|tg ts IH]; intros H; [reflexivity|].
  cbn [map] in H. inversion H as [|? ? Ha Hts]; subst.
  cbn [map Toggle.handle flip_first].
  destruct (collidepoint (Toggle.rect tg) pos) eqn:C;
    cbn [Z.eqb Pos.eqb andb].
  - f_equal. apply toggles_outside. intros tg' Hin.
    rewrite Forall_forall in Ha.
    apply (Ha (Toggle.rect tg') (in_map _ _ _ Hin) pos C).
  - f_equal. exact (IH Hts).
Qed.

(** The callbacks leave the controls of the menu as they are. *)
Lemma call_controls {Particle} (a : Action) (g g' : @Game.t Particle)
  (t t' : tape) :
  Game.call a g t = Ok (g', t') ->
  Game.buttons g' = Game.buttons g /\ Game.toggles g' = Game.toggles g.
Proof.
  destruct a as [m|]; cbn [Game.call]; intros H.
  - destruct (start_game_ok _ _ _ _ _ H)
      as (hardcore & zen & its & r & _ & _ & _ & ->).
    split; reflexivity.
  - apply ret_ok in H. destruct H as [-> _]. split; reflexivity.
Qed.

Lemma set_controls_same {Particle} (g : @Game.t Particle) :
  Game.set_toggles (Game.set_buttons g (Game.buttons g)) (Game.toggles g) = g.
Proof. destruct g. reflexivity. Qed.

(** X17: the rectangles of the four buttons and the two toggles of the
    menu have no point in common, so a left click in the menu makes one
    control at most react, although the loop hands the click to every
    one of them: the callback of the button under the pointer runs once
    and no toggle changes, or else the toggle under the pointer flips
    and nothing else changes. A game started by the click therefore
    reads the toggles as they were before it. *)
Theorem menu_click_one_control {Particle} (g : @Game.t Particle)
  (pos : point) (burst : list Particle) (t : tape) :
  Game.state g = Game.menu ->
  menu_laid_out g ->
  ForallOrdPairs apart (controls g) /\
  Game.run_event g (MOUSEBUTTONDOWN 1 pos) burst t = menu_click g pos t.
Proof.
  intros S L. pose proof (controls_apart g L) as A.
  split; [exact A|].
  unfold controls in A.
  unfold Game.run_event, menu_click. rewrite S.
  unfold bind at 1. rewrite (handle_buttons_click _ _ _ _ (apart_left _ _ A)).
  destruct (find _ (Game.buttons g)) as [b|] eqn:F.
  - apply find_some in F. destruct F as [Hin C].
    unfold bind.
    destruct (Game.call (Button.on_click b) g t) as [[g' t']|e] eqn:E;
      [|reflexivity].
    destruct (call_controls _ _ _ _ _ E) as [Eb Et].
    cbn [ret Game.toggles Game.set_buttons].
    rewrite toggles_outside.
    + rewrite <- Eb. rewrite set_controls_same. reflexivity.
    + intros tg Hg. rewrite Et in Hg.
      apply (apart_cross _ _ A (Button.rect b) (Toggle.rect tg)
               (in_map _ _ _ Hin) (in_map _ _ _ Hg) pos C).
  - cbn [ret Game.toggles Game.set_buttons].
    rewrite (toggles_click _ _ (apart_right _ _ A)).
    destruct g. reflexivity.
Qed.

Lemma menu_click_one_control_witness :
  ForallOrdPairs apart (controls (@Game.init unit)) /\
  Game.run_event (@Game.init unit) (MOUSEBUTTONDOWN 1 (570, 210)) [] []
  = menu_click (@Game.init unit) (570, 210) [].
Proof.
  apply (menu_click_one_control (@Game.init unit) (570, 210) [] []).
  - reflexivity.
  - split; reflexivity.
Defined.

(* ================================================================== *)
(** ** Frames without input: the end of a game *)


